(** * Auction repository with automatic closing: model and properties

    A shallow embedding of package [auction]
    (internal/infra/database/auction): the repository that persists
    auctions, bounds how many are monitored at once, closes each one when
    its timer fires and re-arms the timers of the persisted auctions when
    the process starts.

    The Go code runs one goroutine per monitored auction and guards the
    counter [activeAuctionsCount] with a mutex.  The model is an
    interleaving semantics whose atomic steps are the stretches of code
    between two synchronisation points (a critical section of the mutex,
    one call of the store, one read of the clock). *)

From Stdlib Require Import ZArith Lia.
From stdpp Require Import gmap strings list fin_maps.

Local Open Scope Z_scope.

(** ** Package [time] of the Go library, as far as the repository uses it *)

Module time.

(** An instant, in nanoseconds since the Unix epoch. *)
Definition Time := Z.

(** [time.Duration] is an [int64] count of nanoseconds. *)
Definition Duration := Z.

Definition Second : Duration := 1000000000.
Definition Minute : Duration := 60 * Second.

Definition minDuration : Duration := - 2 ^ 63.
Definition maxDuration : Duration := 2 ^ 63 - 1.

(** [t.Add(d)] *)
Definition Add (t : Time) (d : Duration) : Time := t + d.

(** [t.Unix()]: whole seconds since the epoch, rounded down. *)
Definition Unix_of (t : Time) : Z := t / Second.

(** [time.Unix(sec, nsec)] *)
Definition Unix (sec nsec : Z) : Time := sec * Second + nsec.

(** [t.Sub(u)]: the difference, saturated to the range of [Duration]. *)
Definition Sub (t u : Time) : Duration :=
  if t - u <? minDuration then minDuration
  else if maxDuration <? t - u then maxDuration
  else t - u.

(** A timer created by [time.NewTimer(d)] at instant [armed_at]. *)
Record Timer := { armed_at : Time; after : Duration }.

Definition NewTimer (now : Time) (d : Duration) : Timer :=
  {| armed_at := now; after := d |}.

(** Whether a receive on [timer.C] can proceed at instant [now]. *)
Definition expired (now : Time) (t : Timer) : bool :=
  armed_at t + after t <=? now.

End time.

(** ** Signed 64-bit arithmetic of the counter *)

Definition int64 (z : Z) : Z := (z + 2 ^ 63) mod 2 ^ 64 - 2 ^ 63.

(** ** Package [auction_entity] *)

Module auction_entity.

(** Modelled from the spec: package [auction_entity] is not among the
    sources.  The status is the two-valued enumeration of the data model
    (Active, Completed). *)
Inductive AuctionStatus := Active | Completed.

(** Modelled from the spec: the product condition, opaque payload that is
    carried through and never interpreted. *)
Definition ProductCondition := Z.

(** Modelled from the spec: the entity handed to [CreateAuction], with
    the fields that [CreateAuction] reads from it. *)
Record Auction := {
  Id : string;
  ProductName : string;
  Category : string;
  Description : string;
  Condition : ProductCondition;
  Status : AuctionStatus;
  Timestamp : time.Time
}.

End auction_entity.

#[global] Instance AuctionStatus_eq_dec : EqDecision auction_entity.AuctionStatus.
Proof. solve_decision. Defined.

(** ** Package [internal_error] *)

Module internal_error.

(** Modelled from the spec: package [internal_error] is not among the
    sources; an error is known here by the message it was built with. *)
Inductive InternalError := NewInternalServerError (message : string).

End internal_error.

(** ** The persistent store *)

Module mongo.

(** The MongoDB collection is an external collaborator, described by the
    spec's store interface.  A collection maps each [_id] to one document;
    every call is atomic and may fail for lack of connectivity, which the
    caller sees as an error ([None] here).  The flag [up] says whether the
    store answers this call. *)
Section collection.
Context {D : Type} (_id : D → string).

(** Modelled from the spec: [InsertOne], the store's insert; it fails with
    a store error on a duplicate [_id] or when the store does not answer. *)
Definition InsertOne (up : bool) (doc : D) (c : gmap string D)
  : option (gmap string D) :=
  if up then
    match c !! _id doc with
    | None => Some (<[_id doc := doc]> c)
    | Some _ => None
    end
  else None.

(** Modelled from the spec: [UpdateOne] with filter [{"_id": id}] and an
    update [{"$set": ...}]; it fails when the store does not answer and
    succeeds, changing nothing, when no document has that id. *)
Definition UpdateOne (up : bool) (id : string) (set : D → D)
    (c : gmap string D) : option (gmap string D) :=
  if up then Some (alter set id c) else None.

(** Modelled from the spec: [Find] followed by [cursor.All], the documents
    that satisfy the filter, in no specified order. *)
Definition Find (up : bool) (sel : D → bool) (c : gmap string D)
  : option (list D) :=
  if up then Some (List.filter sel (map_to_list c).*2) else None.
End collection.

End mongo.

(** ** Package [auction] *)

Import auction_entity internal_error.

Record AuctionEntityMongo := {
  Id : string;
  ProductName : string;
  Category : string;
  Description : string;
  Condition : ProductCondition;
  Status : AuctionStatus;
  Timestamp : Z;
  EndTime : Z
}.

(** The update document [{"$set": {"status": status}}]. *)
Definition set_status (status : AuctionStatus) (d : AuctionEntityMongo)
  : AuctionEntityMongo :=
  {| Id := Id d; ProductName := ProductName d; Category := Category d;
     Description := Description d; Condition := Condition d;
     Status := status; Timestamp := Timestamp d; EndTime := EndTime d |}.

(** The process environment.  [time.ParseDuration] belongs to the Go
    library: [AUCTION_INTERVAL] holds its outcome on the value of that
    variable, [None] standing for a parse error (an unset or empty variable
    is one).  [MAX_CONCURRENT_AUCTIONS] is the raw text, if set. *)
Record Env := {
  AUCTION_INTERVAL : option time.Duration;
  MAX_CONCURRENT_AUCTIONS : option string
}.

(** The mutex [auctionCountMutex] has no field of its own: a critical
    section is one atomic step of the model. *)
Record AuctionRepository := {
  Collection : gmap string AuctionEntityMongo;
  activeAuctionsCount : Z
}.

Definition with_Collection (c : gmap string AuctionEntityMongo)
    (ar : AuctionRepository) : AuctionRepository :=
  {| Collection := c; activeAuctionsCount := activeAuctionsCount ar |}.

Definition with_count (n : Z) (ar : AuctionRepository) : AuctionRepository :=
  {| Collection := Collection ar; activeAuctionsCount := n |}.

Definition getAuctionDuration (env : Env) : time.Duration :=
  match AUCTION_INTERVAL env with
  | Some duration => duration
  | None => time.Minute * 5
  end.

Definition getMaxConcurrentAuctions (env : Env) : Z := 50.

Definition checkActiveAuctionsLimit (env : Env) (ar : AuctionRepository)
  : bool :=
  let maxAuctions := getMaxConcurrentAuctions env in
  activeAuctionsCount ar <? maxAuctions.

Definition UpdateAuctionStatus (up : bool) (auctionId : string)
    (status : AuctionStatus) (ar : AuctionRepository)
  : AuctionRepository * option InternalError :=
  match mongo.UpdateOne up auctionId (set_status status) (Collection ar) with
  | None =>
      (ar, Some (NewInternalServerError "Error trying to update auction status"))
  | Some c => (with_Collection c ar, None)
  end.

(** [activeAuctionsCount++] and [activeAuctionsCount--] under the mutex. *)
Definition count_up (ar : AuctionRepository) : AuctionRepository :=
  with_count (int64 (activeAuctionsCount ar + 1)) ar.

Definition count_down (ar : AuctionRepository) : AuctionRepository :=
  with_count (int64 (activeAuctionsCount ar - 1)) ar.

(** The document that [CreateAuction] builds. *)
Definition auctionEntityMongo (env : Env) (auctionEntity : Auction)
  : AuctionEntityMongo :=
  let auctionDuration := getAuctionDuration env in
  let endTime := time.Add (auction_entity.Timestamp auctionEntity) auctionDuration in
  {| Id := auction_entity.Id auctionEntity;
     ProductName := auction_entity.ProductName auctionEntity;
     Category := auction_entity.Category auctionEntity;
     Description := auction_entity.Description auctionEntity;
     Condition := auction_entity.Condition auctionEntity;
     Status := auction_entity.Status auctionEntity;
     Timestamp := time.Unix_of (auction_entity.Timestamp auctionEntity);
     EndTime := time.Unix_of endTime |}.

(** The [InsertOne] of [CreateAuction]. *)
Definition CreateAuction_insert (env : Env) (up : bool) (auctionEntity : Auction)
    (ar : AuctionRepository) : option AuctionRepository :=
  match mongo.InsertOne Id up (auctionEntityMongo env auctionEntity)
          (Collection ar) with
  | Some c => Some (with_Collection c ar)
  | None => None
  end.

(** *** Goroutines

    A goroutine is named by the function it runs and the point it has
    reached: each constructor stands for the next atomic stretch of code
    the goroutine will run. *)
Inductive Goroutine :=
  (* CreateAuction: the limit check, the insert, the counter increment *)
  | G_Create_check (auctionEntity : Auction)
  | G_Create_insert (auctionEntity : Auction)
  | G_Create_count (auctionEntity : Auction)
  (* startIndividualAuctionMonitor: arm, wait and close, decrement *)
  | G_Monitor_arm (auctionEntity : Auction)
  | G_Monitor_wait (auctionId : string) (timer : time.Timer)
  | G_Monitor_release
  (* handleActiveAuctionsOnRestart: the query, the loop, the forced close *)
  | G_Restart_find
  | G_Restart_loop (activeAuctions : list AuctionEntityMongo)
  | G_Restart_close (auction : AuctionEntityMongo)
      (rest : list AuctionEntityMongo)
  (* startIndividualAuctionMonitorWithEndTime *)
  | G_MonitorEnd_arm (auctionId : string) (endTime : time.Time)
  | G_MonitorEnd_wait (auctionId : string) (timer : time.Timer)
  | G_MonitorEnd_release.

(** The outcome of one atomic stretch: the repository, what is left of the
    goroutine (none when it returned) and the goroutines it started. *)
Definition Outcome : Type :=
  AuctionRepository * list Goroutine * list Goroutine.

(** The receive on [timer.C] followed by the status update, shared by the
    two monitors; [next] is where the goroutine goes on success. *)
Definition wait_and_close (now : time.Time) (up : bool) (self next : Goroutine)
    (auctionId : string) (timer : time.Timer) (ar : AuctionRepository)
  : Outcome :=
  if time.expired now timer then
    match UpdateAuctionStatus up auctionId Completed ar with
    | (ar', None) => (ar', [next], [])
    | (_, Some _) => (ar, [], [])
    end
  else (ar, [self], []).

Definition exec (env : Env) (now : time.Time) (up : bool) (g : Goroutine)
    (ar : AuctionRepository) : Outcome :=
  match g with
  | G_Create_check a =>
      if checkActiveAuctionsLimit env ar then (ar, [G_Create_insert a], [])
      else (ar, [], [])
  | G_Create_insert a =>
      match CreateAuction_insert env up a ar with
      | Some ar' => (ar', [G_Create_count a], [])
      | None => (ar, [], [])
      end
  | G_Create_count a => (count_up ar, [], [G_Monitor_arm a])
  | G_Monitor_arm a =>
      let auctionDuration := getAuctionDuration env in
      (ar, [G_Monitor_wait (auction_entity.Id a)
              (time.NewTimer now auctionDuration)], [])
  | G_Monitor_wait auctionId timer =>
      wait_and_close now up g G_Monitor_release auctionId timer ar
  | G_Monitor_release => (count_down ar, [], [])
  | G_Restart_find =>
      match mongo.Find up (λ d, bool_decide (Status d = Active))
              (Collection ar) with
      | Some activeAuctions => (ar, [G_Restart_loop activeAuctions], [])
      | None => (ar, [], [])
      end
  | G_Restart_loop [] => (ar, [], [])
  | G_Restart_loop (auction :: rest) =>
      let endTime := time.Unix (EndTime auction) 0 in
      if activeAuctionsCount ar <? getMaxConcurrentAuctions env then
        (count_up ar, [G_Restart_loop rest],
         [G_MonitorEnd_arm (Id auction) endTime])
      else (ar, [G_Restart_close auction rest], [])
  | G_Restart_close auction rest =>
      ((UpdateAuctionStatus up (Id auction) Completed ar).1,
       [G_Restart_loop rest], [])
  | G_MonitorEnd_arm auctionId endTime =>
      let remainingTime := time.Sub endTime now in
      if remainingTime <=? 0 then
        ((UpdateAuctionStatus up auctionId Completed ar).1, [], [])
      else
        (ar, [G_MonitorEnd_wait auctionId (time.NewTimer now remainingTime)],
         [])
  | G_MonitorEnd_wait auctionId timer =>
      wait_and_close now up g G_MonitorEnd_release auctionId timer ar
  | G_MonitorEnd_release => (count_down ar, [], [])
  end.

(** *** The process *)

Record Process := {
  env : Env;
  clock : time.Time;
  repo : AuctionRepository;
  goroutines : list Goroutine
}.

(** What can happen next: time passes, a caller enters [CreateAuction], a
    caller runs [UpdateAuctionStatus], or the scheduler lets goroutine [i]
    run its next stretch.  [up] tells whether the store answers the call
    made in that stretch, if it makes one. *)
Inductive Event :=
  | Tick (dt : N)
  | Call_CreateAuction (auctionEntity : Auction)
  | Call_UpdateAuctionStatus (auctionId : string) (status : AuctionStatus)
      (up : bool)
  | Run (i : nat) (up : bool).

Definition step (e : Event) (p : Process) : Process :=
  match e with
  | Tick dt =>
      {| env := env p; clock := clock p + Z.of_N dt; repo := repo p;
         goroutines := goroutines p |}
  | Call_CreateAuction a =>
      {| env := env p; clock := clock p; repo := repo p;
         goroutines := goroutines p ++ [G_Create_check a] |}
  | Call_UpdateAuctionStatus auctionId status up =>
      {| env := env p; clock := clock p;
         repo := (UpdateAuctionStatus up auctionId status (repo p)).1;
         goroutines := goroutines p |}
  | Run i up =>
      match goroutines p !! i with
      | None => p
      | Some g =>
          let '(ar, self, started) := exec (env p) (clock p) up g (repo p) in
          {| env := env p; clock := clock p; repo := ar;
             goroutines :=
               take i (goroutines p) ++ self ++ drop (S i) (goroutines p)
                 ++ started |}
      end
  end.

Definition run (es : list Event) (p : Process) : Process :=
  fold_left (λ q e, step e q) es p.

(** [NewAuctionRepository]: the counter starts at zero and the recovery
    pass is started as a goroutine. *)
Definition NewAuctionRepository (database : gmap string AuctionEntityMongo)
  : AuctionRepository * list Goroutine :=
  ({| Collection := database; activeAuctionsCount := 0 |}, [G_Restart_find]).

(** The process right after start, over the persisted collection. *)
Definition boot (e : Env) (now : time.Time)
    (database : gmap string AuctionEntityMongo) : Process :=
  let '(ar, gs) := NewAuctionRepository database in
  {| env := e; clock := now; repo := ar; goroutines := gs |}.

(** *** [CreateAuction] run from entry to return without interruption *)

Definition CreateAuction (env : Env) (up : bool) (auctionEntity : Auction)
    (ar : AuctionRepository)
  : AuctionRepository * list Goroutine * option InternalError :=
  if negb (checkActiveAuctionsLimit env ar) then
    (ar, [],
     Some (NewInternalServerError "Maximum concurrent auctions limit reached"))
  else
    match CreateAuction_insert env up auctionEntity ar with
    | None =>
        (ar, [], Some (NewInternalServerError "Error trying to insert auction"))
    | Some ar' => (count_up ar', [G_Monitor_arm auctionEntity], None)
    end.

(** ** Vocabulary of the properties *)

(** [d'] is [d] with, at most, another status. *)
Definition same_payload (d d' : AuctionEntityMongo) : Prop :=
  Id d' = Id d ∧ ProductName d' = ProductName d ∧ Category d' = Category d
  ∧ Description d' = Description d ∧ Condition d' = Condition d
  ∧ Timestamp d' = Timestamp d ∧ EndTime d' = EndTime d.

(** Every document of [c] is still in [c'], status apart. *)
Definition keeps (c c' : gmap string AuctionEntityMongo) : Prop :=
  ∀ id d, c !! id = Some d → ∃ d', c' !! id = Some d' ∧ same_payload d d'.

(** Every Completed document of [c] is still in [c'], and Completed. *)
Definition keeps_closed (c c' : gmap string AuctionEntityMongo) : Prop :=
  ∀ id d, c !! id = Some d → Status d = Completed →
    ∃ d', c' !! id = Some d' ∧ Status d' = Completed.

(** The status of auction [id] in the store, if it is there. *)
Definition status_of (id : string) (ar : AuctionRepository)
  : option AuctionStatus :=
  Status <$> Collection ar !! id.

(** The goroutines that hold a slot of the counter: the monitors, whose
    start was preceded by an increment. *)
Definition holds_slot (g : Goroutine) : bool :=
  match g with
  | G_Monitor_arm _ | G_Monitor_wait _ _ | G_Monitor_release
  | G_MonitorEnd_arm _ _ | G_MonitorEnd_wait _ _ | G_MonitorEnd_release => true
  | _ => false
  end.

Definition slots_held (gs : list Goroutine) : Z :=
  Z.of_nat (length (List.filter holds_slot gs)).


(** An event that, if it is a status update asked by a caller, asks for
    Completed. *)
Definition closing (e : Event) : Prop :=
  match e with
  | Call_UpdateAuctionStatus _ status _ => status = Completed
  | _ => True
  end.

(** An event other than a new call of [CreateAuction]. *)
Definition no_new_auction (e : Event) : Prop :=
  match e with
  | Call_CreateAuction _ => False
  | _ => True
  end.

(** *** Sample data for the examples *)

Definition sample_env (interval : option time.Duration) : Env :=
  {| AUCTION_INTERVAL := interval; MAX_CONCURRENT_AUCTIONS := None |}.

(** Process start in the examples: 2023-11-14 22:13:20 UTC. *)
Definition sample_now : time.Time := 1700000000 * time.Second.

Definition sample_auction (id : string) : Auction :=
  {| auction_entity.Id := id; auction_entity.ProductName := "Lamp";
     auction_entity.Category := "Home";
     auction_entity.Description := "A brass desk lamp";
     auction_entity.Condition := 1; auction_entity.Status := Active;
     auction_entity.Timestamp := sample_now |}.

Definition sample_doc (id : string) (status : AuctionStatus)
    (timestamp endTime : Z) : AuctionEntityMongo :=
  {| Id := id; ProductName := "Lamp"; Category := "Home";
     Description := "A brass desk lamp"; Condition := 1; Status := status;
     Timestamp := timestamp; EndTime := endTime |}.

Definition empty_repo : AuctionRepository :=
  {| Collection := ∅; activeAuctionsCount := 0 |}.

(** A store holding one Active auction that ended an hour before the
    process starts, and the recovery pass over it: the query, the loop
    admitting the auction, its monitor, the end of the loop. *)
Definition overdue_database : gmap string AuctionEntityMongo :=
  {[ "a1" := sample_doc "a1" Active 1699992800 1699996400 ]}.

Definition recovery_of_one : list Event :=
  [Run 0 true; Run 0 true; Run 1 true; Run 0 true].

(** [n] callers in [CreateAuction] at once over a fresh process, goroutine
    0 being the recovery pass: all enter, all pass the limit check, all
    insert, and then each increments the counter. *)
Definition racing_auctions (n : nat) : list Auction :=
  (λ i, sample_auction (String (Ascii.ascii_of_nat (33 + i)) "")) <$> seq 0 n.

Definition race (n : nat) : list Event :=
  (Call_CreateAuction <$> racing_auctions n)
  ++ ((λ i, Run i true) <$> seq 1 n)
  ++ ((λ i, Run i true) <$> seq 1 n)
  ++ replicate n (Run 1 true).

(** ** The earlier revision of package [auction]

    The sources hold an earlier copy of the repository, whose documents
    have no end time and whose recovery pass closes every auction it finds
    Active instead of re-arming timers.  What differs from the revision
    above is modelled here. *)

Module legacy.

Record AuctionEntityMongo := {
  Id : string;
  ProductName : string;
  Category : string;
  Description : string;
  Condition : ProductCondition;
  Status : AuctionStatus;
  Timestamp : Z
}.

Definition set_status (status : AuctionStatus) (d : AuctionEntityMongo)
  : AuctionEntityMongo :=
  {| Id := Id d; ProductName := ProductName d; Category := Category d;
     Description := Description d; Condition := Condition d;
     Status := status; Timestamp := Timestamp d |}.

Record AuctionRepository := {
  Collection : gmap string AuctionEntityMongo;
  activeAuctionsCount : Z
}.

Definition UpdateAuctionStatus (up : bool) (auctionId : string)
    (status : AuctionStatus) (ar : AuctionRepository)
  : AuctionRepository * option InternalError :=
  match mongo.UpdateOne up auctionId (set_status status) (Collection ar) with
  | None =>
      (ar, Some (NewInternalServerError "Error trying to update auction status"))
  | Some c =>
      ({| Collection := c; activeAuctionsCount := activeAuctionsCount ar |},
       None)
  end.

(** The loop of [handleActiveAuctionsOnRestart]: every auction found is
    closed, a failed update being logged and skipped.  [answers] tells,
    for each auction, whether the store answers the update made for it. *)
Fixpoint close_all (answers : AuctionEntityMongo → bool)
    (activeAuctions : list AuctionEntityMongo) (ar : AuctionRepository)
  : AuctionRepository :=
  match activeAuctions with
  | [] => ar
  | auction :: rest =>
      close_all answers rest
        (UpdateAuctionStatus (answers auction) (Id auction) Completed ar).1
  end.

(** [handleActiveAuctionsOnRestart], run without interruption; [found]
    tells whether the store answers the query. *)
Definition handleActiveAuctionsOnRestart (found : bool)
    (answers : AuctionEntityMongo → bool) (ar : AuctionRepository)
  : AuctionRepository :=
  match mongo.Find found (λ d, bool_decide (Status d = Active))
          (Collection ar) with
  | None => ar
  | Some activeAuctions => close_all answers activeAuctions ar
  end.

(** Every document sits under its own [_id]. *)
Definition well_keyed (c : gmap string AuctionEntityMongo) : Prop :=
  ∀ id d, c !! id = Some d → Id d = id.

End legacy.




(** *** Further vocabulary: whole calls and whole goroutines *)

(** A goroutine run without interruption, from where it stands until it
    returns or [fuel] stretches have run: the repository it leaves, the
    goroutines it started, and what is left of it when the fuel ran out
    (a monitor blocked on its timer never returns while the clock stands
    still).  The store answers every call of the goroutine alike. *)
Fixpoint drain (fuel : nat) (env : Env) (now : time.Time) (up : bool)
    (g : Goroutine) (ar : AuctionRepository)
  : AuctionRepository * list Goroutine * option Goroutine :=
  match fuel with
  | O => (ar, [], Some g)
  | S fuel' =>
      match exec env now up g ar with
      | (ar', [], started) => (ar', started, None)
      | (ar', g' :: _, started) =>
          let '(ar'', started', rest) := drain fuel' env now up g' ar' in
          (ar'', started ++ started', rest)
      end
  end.

(** Every document sits under its own [_id], as in a MongoDB collection. *)
Definition well_keyed (c : gmap string AuctionEntityMongo) : Prop :=
  ∀ id d, c !! id = Some d → Id d = id.

(** The monitor that the recovery loop starts for a stored auction. *)
Definition recovered_monitor (auction : AuctionEntityMongo) : Goroutine :=
  G_MonitorEnd_arm (Id auction) (time.Unix (EndTime auction) 0).

(** The stored auctions closed one after the other. *)
Definition close_each (auctions : list AuctionEntityMongo)
    (c : gmap string AuctionEntityMongo) : gmap string AuctionEntityMongo :=
  foldl (λ c' auction, alter (set_status Completed) (Id auction) c') c
        auctions.


(** A goroutine inside [CreateAuction]. *)
Definition in_CreateAuction (g : Goroutine) : bool :=
  match g with
  | G_Create_check _ | G_Create_insert _ | G_Create_count _ => true
  | _ => false
  end.

(** No goroutine is inside [CreateAuction], and the counter covers the
    monitors without passing the ceiling. *)
Definition calm (p : Process) : Prop :=
  Forall (λ g, in_CreateAuction g = false) (goroutines p)
  ∧ slots_held (goroutines p) ≤ activeAuctionsCount (repo p) ≤ 50.

(** An event of the scheduler or of the clock: no caller is involved. *)
Definition no_caller (e : Event) : Prop :=
  match e with
  | Tick _ | Run _ _ => True
  | _ => False
  end.

(** One call of [CreateAuction] and its monitor scheduled alone: the call
    enters as goroutine [n] and runs its three stretches, the monitor it
    starts arms its timer, [dt] nanoseconds pass, and the monitor is
    scheduled twice more. *)
Definition create_then_wait (a : Auction) (n : nat) (dt : N) : list Event :=
  [Call_CreateAuction a; Run n true; Run n true; Run n true; Run n true;
   Tick dt; Run n true; Run n true].

(** ** Properties of [UpdateAuctionStatus] *)

Lemma UpdateAuctionStatus_up auctionId status ar :
  UpdateAuctionStatus true auctionId status ar
  = (with_Collection (alter (set_status status) auctionId (Collection ar)) ar,
     None).
Proof. reflexivity. Qed.

Lemma UpdateAuctionStatus_down auctionId status ar :
  UpdateAuctionStatus false auctionId status ar
  = (ar, Some (NewInternalServerError "Error trying to update auction status")).
Proof. reflexivity. Qed.

Lemma UpdateAuctionStatus_count up auctionId status ar :
  activeAuctionsCount (UpdateAuctionStatus up auctionId status ar).1
  = activeAuctionsCount ar.
Proof. by destruct up. Qed.

Lemma with_Collection_same ar : with_Collection (Collection ar) ar = ar.
Proof. by destruct ar. Qed.

Lemma set_status_same d : set_status (Status d) d = d.
Proof. by destruct d. Qed.

Lemma set_status_payload status d : same_payload d (set_status status d).
Proof. by repeat split. Qed.

Lemma same_payload_refl d : same_payload d d.
Proof. by repeat split. Qed.

Lemma same_payload_trans d1 d2 d3 :
  same_payload d1 d2 → same_payload d2 d3 → same_payload d1 d3.
Proof.
  unfold same_payload. intros H12 H23.
  destruct H12 as (? & ? & ? & ? & ? & ? & ?).
  destruct H23 as (? & ? & ? & ? & ? & ? & ?).
  repeat split; congruence.
Qed.


(** C9.  Closing is idempotent and total on ids: with the store answering,
    [UpdateAuctionStatus id Completed] returns no error whatever the id, a
    second call changes nothing, the auction (if stored) is Completed
    afterwards, a call on an auction that is already Completed or on an
    absent id leaves the repository as it was; and the only way to get an
    error is that the store's update call fails. *)
Theorem UpdateAuctionStatus_Completed_idempotent
    (auctionId : string) (ar : AuctionRepository) :
  let once := UpdateAuctionStatus true auctionId Completed ar in
  let twice := UpdateAuctionStatus true auctionId Completed once.1 in
  once.2 = None
  ∧ twice = (once.1, None)
  ∧ status_of auctionId once.1 = const Completed <$> status_of auctionId ar
  ∧ (status_of auctionId ar = Some Completed → once.1 = ar)
  ∧ (Collection ar !! auctionId = None → once.1 = ar)
  ∧ (∀ up status,
       (UpdateAuctionStatus up auctionId status ar).2 ≠ None
       ↔ mongo.UpdateOne up auctionId (set_status status) (Collection ar)
         = None).
Proof.
  cbv zeta. rewrite !UpdateAuctionStatus_up. simpl.
  split; [done|]. split.
  { f_equal. unfold with_Collection. simpl. f_equal.
    rewrite alter_alter_eq. apply alter_ext. by intros [] _. }
  split.
  { unfold status_of. simpl. rewrite lookup_alter_eq.
    by destruct (Collection ar !! auctionId). }
  split.
  { unfold status_of. intros Hc.
    destruct (Collection ar !! auctionId) as [d|] eqn:Hd; [|done].
    simpl in Hc. injection Hc as Hc.
    rewrite alter_id; [apply with_Collection_same|].
    intros x Hx. rewrite Hd in Hx. injection Hx as <-.
    rewrite <- Hc. apply set_status_same. }
  split.
  { intros Hd. rewrite alter_id; [apply with_Collection_same|].
    intros x Hx. by rewrite Hd in Hx. }
  intros [] status; simpl; split; intros H; done.
Qed.

Lemma UpdateAuctionStatus_lookup up auctionId status ar id d :
  Collection ar !! id = Some d →
  ∃ d', Collection (UpdateAuctionStatus up auctionId status ar).1 !! id
        = Some d'
        ∧ same_payload d d'
        ∧ (id ≠ auctionId → d' = d).
Proof.
  intros Hd. destruct up.
  - rewrite UpdateAuctionStatus_up. simpl.
    rewrite lookup_alter. destruct (decide (auctionId = id)) as [->|Hid].
    + rewrite Hd. simpl. eexists. split; [done|].
      split; [apply set_status_payload|done].
    + exists d. split; [done|]. split; [apply same_payload_refl|done].
  - rewrite UpdateAuctionStatus_down. simpl.
    exists d. split; [done|]. split; [apply same_payload_refl|done].
Qed.

(** C10.  [UpdateAuctionStatus] writes nothing but the status of the
    document whose id matches: the counter and the set of stored ids are
    the same, every document is still stored with the same id, product
    name, category, description, condition, timestamp and end time, and a
    document with another id is the same in every field. *)
Theorem UpdateAuctionStatus_frame
    (up : bool) (auctionId : string) (status : AuctionStatus)
    (ar : AuctionRepository) :
  let ar' := (UpdateAuctionStatus up auctionId status ar).1 in
  activeAuctionsCount ar' = activeAuctionsCount ar
  ∧ dom (Collection ar') = dom (Collection ar)
  ∧ ∀ id d, Collection ar !! id = Some d →
      ∃ d', Collection ar' !! id = Some d'
            ∧ same_payload d d'
            ∧ (id ≠ auctionId → d' = d).
Proof.
  cbv zeta. split; [apply UpdateAuctionStatus_count|]. split.
  - destruct up; [|done]. rewrite UpdateAuctionStatus_up. apply dom_alter_L.
  - intros id d Hd. by apply UpdateAuctionStatus_lookup.
Qed.

(** ** The store along a run *)

Lemma keeps_refl c : keeps c c.
Proof. intros id d Hd. exists d. split; [done|apply same_payload_refl]. Qed.

Lemma keeps_trans c1 c2 c3 : keeps c1 c2 → keeps c2 c3 → keeps c1 c3.
Proof.
  intros H12 H23 id d Hd.
  destruct (H12 id d Hd) as (d2 & Hd2 & Hp2).
  destruct (H23 id d2 Hd2) as (d3 & Hd3 & Hp3).
  exists d3. split; [done|]. by eapply same_payload_trans.
Qed.

Lemma keeps_closed_refl c : keeps_closed c c.
Proof. intros id d Hd Hs. by exists d. Qed.

Lemma keeps_closed_trans c1 c2 c3 :
  keeps_closed c1 c2 → keeps_closed c2 c3 → keeps_closed c1 c3.
Proof.
  intros H12 H23 id d Hd Hs.
  destruct (H12 id d Hd Hs) as (d2 & Hd2 & Hs2).
  exact (H23 id d2 Hd2 Hs2).
Qed.

Lemma keeps_update up auctionId status ar :
  keeps (Collection ar)
        (Collection (UpdateAuctionStatus up auctionId status ar).1).
Proof.
  intros id d Hd.
  destruct (UpdateAuctionStatus_lookup up auctionId status ar id d Hd)
    as (d' & Hd' & Hp & _).
  by exists d'.
Qed.

Lemma keeps_closed_update up auctionId ar :
  keeps_closed (Collection ar)
               (Collection (UpdateAuctionStatus up auctionId Completed ar).1).
Proof.
  intros id d Hd Hs. destruct up.
  - rewrite UpdateAuctionStatus_up. simpl. rewrite lookup_alter.
    destruct (decide (auctionId = id)) as [->|].
    + rewrite Hd. simpl. by eexists.
    + by exists d.
  - by exists d.
Qed.

Lemma CreateAuction_insert_Some env up a ar ar' :
  CreateAuction_insert env up a ar = Some ar' →
  Collection ar !! auction_entity.Id a = None
  ∧ ar' = with_Collection
            (<[auction_entity.Id a := auctionEntityMongo env a]> (Collection ar))
            ar.
Proof.
  unfold CreateAuction_insert, mongo.InsertOne. destruct up; [|done].
  simpl. destruct (Collection ar !! auction_entity.Id a) eqn:E; [done|].
  intros [= <-]. done.
Qed.

Lemma keeps_insert env up a ar ar' :
  CreateAuction_insert env up a ar = Some ar' →
  keeps (Collection ar) (Collection ar')
  ∧ keeps_closed (Collection ar) (Collection ar').
Proof.
  intros [Hfresh ->]%CreateAuction_insert_Some. simpl. split.
  - intros id d Hd. exists d. split; [|apply same_payload_refl].
    rewrite lookup_insert_ne; [done|]. intros <-. congruence.
  - intros id d Hd Hs. exists d. split; [|done].
    rewrite lookup_insert_ne; [done|]. intros <-. congruence.
Qed.

Lemma wait_and_close_store now up self next auctionId timer ar :
  keeps (Collection ar)
    (Collection (wait_and_close now up self next auctionId timer ar).1.1)
  ∧ keeps_closed (Collection ar)
    (Collection (wait_and_close now up self next auctionId timer ar).1.1).
Proof.
  unfold wait_and_close. destruct (time.expired now timer).
  - destruct up.
    + rewrite UpdateAuctionStatus_up. simpl. split.
      * apply (keeps_update true auctionId Completed ar).
      * apply (keeps_closed_update true auctionId ar).
    + simpl. split; [apply keeps_refl|apply keeps_closed_refl].
  - simpl. split; [apply keeps_refl|apply keeps_closed_refl].
Qed.

(** Whatever a goroutine does in one stretch, the documents stay, their
    payload is untouched, and a Completed one stays Completed. *)
Lemma exec_store env now up g ar :
  keeps (Collection ar) (Collection (exec env now up g ar).1.1)
  ∧ keeps_closed (Collection ar) (Collection (exec env now up g ar).1.1).
Proof.
  pose proof (keeps_refl (Collection ar)) as Hr.
  pose proof (keeps_closed_refl (Collection ar)) as Hc.
  destruct g as [a|a|a|a|id t| | |[|d l]|d l|id t|id t| ]; simpl;
    try (split; assumption).
  - by destruct (checkActiveAuctionsLimit env ar).
  - destruct (CreateAuction_insert env up a ar) eqn:E; [|done].
    simpl. by eapply keeps_insert.
  - apply wait_and_close_store.
  - by destruct (mongo.Find up _ (Collection ar)).
  - by destruct (activeAuctionsCount ar <? getMaxConcurrentAuctions env).
  - split; [apply keeps_update|apply keeps_closed_update].
  - destruct (time.Sub t now <=? 0); simpl; [|done].
    split; [apply keeps_update|apply keeps_closed_update].
  - apply wait_and_close_store.
Qed.

Lemma step_keeps e p :
  keeps (Collection (repo p)) (Collection (repo (step e p))).
Proof.
  destruct e as [dt|a|id st up|i up]; simpl; try apply keeps_refl.
  - apply keeps_update.
  - destruct (goroutines p !! i) as [g|]; [|apply keeps_refl].
    pose proof (exec_store (env p) (clock p) up g (repo p)) as [H _].
    by destruct (exec (env p) (clock p) up g (repo p)) as [[ar k] sp].
Qed.

Lemma step_keeps_closed e p :
  closing e →
  keeps_closed (Collection (repo p)) (Collection (repo (step e p))).
Proof.
  destruct e as [dt|a|id st up|i up]; simpl; intros He;
    try apply keeps_closed_refl.
  - subst st. apply keeps_closed_update.
  - destruct (goroutines p !! i) as [g|]; [|apply keeps_closed_refl].
    pose proof (exec_store (env p) (clock p) up g (repo p)) as [_ H].
    by destruct (exec (env p) (clock p) up g (repo p)) as [[ar k] sp].
Qed.

Lemma run_app es1 es2 p : run (es1 ++ es2) p = run es2 (run es1 p).
Proof. apply fold_left_app. Qed.

Lemma run_cons e es p : run (e :: es) p = run es (step e p).
Proof. reflexivity. Qed.

Lemma run_keeps es p :
  keeps (Collection (repo p)) (Collection (repo (run es p))).
Proof.
  revert p. induction es as [|e es IH]; intros p; [apply keeps_refl|].
  rewrite run_cons. eapply keeps_trans; [apply step_keeps|apply IH].
Qed.

Lemma run_keeps_closed es p :
  Forall closing es →
  keeps_closed (Collection (repo p)) (Collection (repo (run es p))).
Proof.
  intros Hes. revert p.
  induction Hes as [|e es He _ IH]; intros p; [apply keeps_closed_refl|].
  rewrite run_cons.
  eapply keeps_closed_trans; [by apply step_keeps_closed|apply IH].
Qed.

(** ** Properties of [CreateAuction] *)

Lemma int64_small z : - 2 ^ 63 ≤ z < 2 ^ 63 → int64 z = z.
Proof.
  intros Hz. unfold int64.
  rewrite Z.mod_small; lia.
Qed.

Lemma step_Run_last e now ar gs g up :
  step (Run (length gs) up)
    {| env := e; clock := now; repo := ar; goroutines := gs ++ [g] |}
  = {| env := e; clock := now; repo := (exec e now up g ar).1.1;
       goroutines := gs ++ (exec e now up g ar).1.2 ++ (exec e now up g ar).2 |}.
Proof.
  unfold step. cbn [goroutines env clock repo].
  rewrite list_lookup_middle by done.
  destruct (exec e now up g ar) as [[ar' k] sp].
  rewrite take_app_length.
  rewrite (drop_ge (gs ++ [g])) by (rewrite length_app; simpl; lia).
  done.
Qed.

Lemma step_Run_beyond e now ar gs up :
  step (Run (length gs) up)
    {| env := e; clock := now; repo := ar; goroutines := gs |}
  = {| env := e; clock := now; repo := ar; goroutines := gs |}.
Proof.
  unfold step. cbn [goroutines]. by rewrite lookup_ge_None_2 by lia.
Qed.

(** [CreateAuction] run without interruption is the call entering and its
    goroutine being scheduled three times in a row. *)
Lemma CreateAuction_uninterrupted up a p :
  run [Call_CreateAuction a; Run (length (goroutines p)) up;
       Run (length (goroutines p)) up; Run (length (goroutines p)) up] p
  = {| env := env p; clock := clock p;
       repo := (CreateAuction (env p) up a (repo p)).1.1;
       goroutines :=
         goroutines p ++ (CreateAuction (env p) up a (repo p)).1.2 |}.
Proof.
  destruct p as [e now ar gs]. unfold run, CreateAuction.
  cbn [fold_left env clock repo goroutines].
  change (step (Call_CreateAuction a) _)
    with {| env := e; clock := now; repo := ar;
            goroutines := gs ++ [G_Create_check a] |}.
  rewrite step_Run_last. cbn [exec].
  destruct (checkActiveAuctionsLimit e ar) eqn:Hlim; cbn [negb fst snd].
  - rewrite app_nil_r. rewrite step_Run_last. cbn [exec].
    destruct (CreateAuction_insert e up a ar) as [ar'|] eqn:Hins;
      cbn [fst snd].
    + rewrite app_nil_r. rewrite step_Run_last. cbn [exec fst snd app].
      done.
    + rewrite !app_nil_r. by rewrite step_Run_beyond.
  - rewrite !app_nil_r. by rewrite !step_Run_beyond.
Qed.

(** C8.  The two ways [CreateAuction] fails leave nothing behind.  When
    the limit check fails the call returns the limit error, and when the
    insert fails after a passed check it returns the insert error; in both
    cases the repository (documents and counter) is the one the call found
    and no monitor is started.  The same holds stretch by stretch when the
    call is interleaved with others. *)
Theorem CreateAuction_failure_is_clean
    (env : Env) (up : bool) (auctionEntity : Auction)
    (ar : AuctionRepository) :
  (checkActiveAuctionsLimit env ar = false →
     CreateAuction env up auctionEntity ar
     = (ar, [],
        Some (NewInternalServerError
                "Maximum concurrent auctions limit reached"))
     ∧ ∀ now, exec env now up (G_Create_check auctionEntity) ar
              = (ar, [], []))
  ∧ (mongo.InsertOne Id up (auctionEntityMongo env auctionEntity)
       (Collection ar) = None →
     (checkActiveAuctionsLimit env ar = true →
      CreateAuction env up auctionEntity ar
      = (ar, [],
         Some (NewInternalServerError "Error trying to insert auction")))
     ∧ ∀ now, exec env now up (G_Create_insert auctionEntity) ar
              = (ar, [], [])).
Proof.
  split.
  - intros Hlim. split.
    + unfold CreateAuction. by rewrite Hlim.
    + intros now. simpl. by rewrite Hlim.
  - intros Hins. split.
    + intros Hlim. unfold CreateAuction, CreateAuction_insert.
      by rewrite Hlim, Hins.
    + intros now. simpl. unfold CreateAuction_insert. by rewrite Hins.
Qed.

(** ** The ceiling *)

(** C6.  The ceiling does not come from the configuration:
    [getMaxConcurrentAuctions] is 50 whatever the environment holds.  With
    [MAX_CONCURRENT_AUCTIONS=10] and ten auctions counted, both the check of
    [CreateAuction] and the recovery loop still admit. *)
Theorem getMaxConcurrentAuctions_ignores_configuration :
  (∀ env, getMaxConcurrentAuctions env = 50)
  ∧ let env10 := {| AUCTION_INTERVAL := None;
                    MAX_CONCURRENT_AUCTIONS := Some "10" |} in
    let ar := {| Collection := ∅; activeAuctionsCount := 10 |} in
    checkActiveAuctionsLimit env10 ar = true
    ∧ ∀ now up auction rest,
        (exec env10 now up (G_Restart_loop (auction :: rest)) ar).1.1
        = count_up ar.
Proof. split; [done|]. cbv zeta. split; [done|]. done. Qed.

(** Witness of C8: a repository at the ceiling refuses the call, and a
    store that does not answer fails the insert, on a concrete auction. *)
Lemma CreateAuction_failure_is_clean_witness :
  let env := {| AUCTION_INTERVAL := Some (3 * time.Second);
                MAX_CONCURRENT_AUCTIONS := None |} in
  let a := {| auction_entity.Id := "a1"; auction_entity.ProductName := "Lamp";
              auction_entity.Category := "Home";
              auction_entity.Description := "A brass desk lamp";
              auction_entity.Condition := 1; auction_entity.Status := Active;
              auction_entity.Timestamp := 1700000000 * time.Second |} in
  let full := {| Collection := ∅; activeAuctionsCount := 50 |} in
  let free := {| Collection := ∅; activeAuctionsCount := 0 |} in
  CreateAuction env true a full
  = (full, [],
     Some (NewInternalServerError "Maximum concurrent auctions limit reached"))
  ∧ CreateAuction env false a free
    = (free, [],
       Some (NewInternalServerError "Error trying to insert auction")).
Proof.
  cbv zeta. split.
  - apply CreateAuction_failure_is_clean. reflexivity.
  - apply CreateAuction_failure_is_clean; reflexivity.
Defined.

(** ** The end time *)

Lemma Unix_of_later t d :
  time.Second ≤ d → time.Unix_of t < time.Unix_of (time.Add t d).
Proof.
  unfold time.Unix_of, time.Add, time.Second. intros Hd.
  assert (t / 1000000000 + 1 ≤ (t + d) / 1000000000); [|lia].
  rewrite <- (Z.div_add t 1 1000000000) by lia.
  apply Z.div_le_mono; lia.
Qed.

Lemma Unix_of_not_later t d :
  d ≤ 0 → time.Unix_of (time.Add t d) ≤ time.Unix_of t.
Proof.
  unfold time.Unix_of, time.Add, time.Second. intros Hd.
  apply Z.div_le_mono; lia.
Qed.

Lemma CreateAuction_ok env up a ar ar' started :
  CreateAuction env up a ar = (ar', started, None) →
  ∃ ar1, CreateAuction_insert env up a ar = Some ar1
         ∧ ar' = count_up ar1 ∧ started = [G_Monitor_arm a].
Proof.
  unfold CreateAuction.
  destruct (checkActiveAuctionsLimit env ar); simpl; [|done].
  destruct (CreateAuction_insert env up a ar) as [ar1|]; [|done].
  intros [= <- <-]. by exists ar1.
Qed.

(** C7, as the code has it.  The document of a created auction carries, as
    end time, the Unix second of the creation instant plus the configured
    duration; no later event changes its end time or its timestamp.  The
    end time is after the timestamp when the duration is a second or more,
    and is not when the duration is zero or negative. *)
Theorem CreateAuction_persists_endTime
    (env : Env) (up : bool) (auctionEntity : Auction)
    (ar ar' : AuctionRepository) (started : list Goroutine) :
  CreateAuction env up auctionEntity ar = (ar', started, None) →
  ∃ d, Collection ar' !! auction_entity.Id auctionEntity = Some d
    ∧ Timestamp d = time.Unix_of (auction_entity.Timestamp auctionEntity)
    ∧ EndTime d
      = time.Unix_of (time.Add (auction_entity.Timestamp auctionEntity)
                               (getAuctionDuration env))
    ∧ (time.Second ≤ getAuctionDuration env → Timestamp d < EndTime d)
    ∧ (getAuctionDuration env ≤ 0 → EndTime d ≤ Timestamp d)
    ∧ ∀ p es, repo p = ar' →
        ∃ d', Collection (repo (run es p)) !! auction_entity.Id auctionEntity
              = Some d'
              ∧ EndTime d' = EndTime d ∧ Timestamp d' = Timestamp d.
Proof.
  intros (ar1 & Hins & -> & _)%CreateAuction_ok.
  apply CreateAuction_insert_Some in Hins as [_ ->].
  exists (auctionEntityMongo env auctionEntity). simpl.
  split; [apply lookup_insert_eq|]. split; [done|]. split; [done|].
  split; [apply Unix_of_later|]. split; [apply Unix_of_not_later|].
  intros p es Hp.
  destruct (run_keeps es p (auction_entity.Id auctionEntity)
              (auctionEntityMongo env auctionEntity))
    as (d' & Hd' & Hpay).
  { rewrite Hp. simpl. apply lookup_insert_eq. }
  exists d'. split; [done|].
  destruct Hpay as (_ & _ & _ & _ & _ & Ht & He). done.
Qed.

(** ** The status *)

Lemma status_of_Some id ar s :
  status_of id ar = Some s ↔
  ∃ d, Collection ar !! id = Some d ∧ Status d = s.
Proof.
  unfold status_of. destruct (Collection ar !! id) as [d|]; simpl.
  - split; [intros [= <-]; by exists d|]. by intros (? & [= <-] & <-).
  - split; [done|]. by intros (? & ? & _).
Qed.

(** C5, as the code has it.  Along any sequence of events in which the
    callers of [UpdateAuctionStatus] ask for Completed, an auction that is
    Completed stays stored and Completed: creations, timers and the
    recovery pass never write another status. *)
Theorem Completed_stays_Completed
    (p : Process) (es : list Event) (auctionId : string) :
  Forall closing es →
  status_of auctionId (repo p) = Some Completed →
  status_of auctionId (repo (run es p)) = Some Completed.
Proof.
  intros Hes (d & Hd & Hs)%status_of_Some.
  apply status_of_Some.
  exact (run_keeps_closed es p Hes auctionId d Hd Hs).
Qed.

(** Counterexample to C7 as stated: with [AUCTION_INTERVAL=0s] the created
    auction is stored with an end time equal to its timestamp. *)
Lemma endTime_not_after_createdAt_with_zero_interval :
  ∃ ar d,
    CreateAuction (sample_env (Some 0)) true (sample_auction "a1") empty_repo
    = (ar, [G_Monitor_arm (sample_auction "a1")], None)
    ∧ Collection ar !! "a1" = Some d
    ∧ EndTime d = Timestamp d.
Proof.
  eexists _, _. split; [reflexivity|]. split; [reflexivity|]. reflexivity.
Qed.

(** Witness of C7: an auction created with [AUCTION_INTERVAL=3s]. *)
Lemma CreateAuction_persists_endTime_witness :
  ∃ d, Collection
         (CreateAuction (sample_env (Some (3 * time.Second))) true
            (sample_auction "a1") empty_repo).1.1 !! "a1" = Some d
    ∧ Timestamp d = 1700000000
    ∧ EndTime d = 1700000003.
Proof.
  destruct (CreateAuction_persists_endTime
              (sample_env (Some (3 * time.Second))) true (sample_auction "a1")
              empty_repo _ _ eq_refl)
    as (d & Hd & Ht & He & _).
  exists d. split; [exact Hd|]. split; [exact Ht|exact He].
Defined.

(** Counterexample to C5 as stated: a caller of [UpdateAuctionStatus]
    asking for Active reopens a Completed auction. *)
Lemma Completed_auction_reopened_by_update :
  let ar := {| Collection :=
                 {[ "a1" := sample_doc "a1" Completed 1700000000 1700000003 ]};
               activeAuctionsCount := 0 |} in
  let p := {| env := sample_env None; clock := sample_now; repo := ar;
              goroutines := [] |} in
  status_of "a1" (repo p) = Some Completed
  ∧ status_of "a1" (repo (step (Call_UpdateAuctionStatus "a1" Active true) p))
    = Some Active.
Proof. cbv zeta. split; reflexivity. Qed.

(** Witness of C5: a Completed auction through a timer firing for it, a
    caller closing it again and time passing. *)
Lemma Completed_stays_Completed_witness :
  let ar := {| Collection :=
                 {[ "a1" := sample_doc "a1" Completed 1700000000 1700000003 ]};
               activeAuctionsCount := 1 |} in
  let p := {| env := sample_env None; clock := sample_now; repo := ar;
              goroutines :=
                [G_Monitor_wait "a1" (time.NewTimer sample_now time.Second)] |}
  in
  status_of "a1"
    (repo (run [Tick 2000000000; Run 0 true;
                Call_UpdateAuctionStatus "a1" Completed true; Run 0 true] p))
  = Some Completed.
Proof.
  cbv zeta. apply Completed_stays_Completed; [|reflexivity].
  repeat constructor.
Defined.

(** ** Timers re-armed after a restart *)


Lemma expired_NewTimer now d t :
  time.expired t (time.NewTimer now d) = true ↔ now + d ≤ t.
Proof. unfold time.expired, time.NewTimer. simpl. apply Z.leb_le. Qed.

Lemma count_down_exact ar :
  - 2 ^ 63 < activeAuctionsCount ar < 2 ^ 63 →
  activeAuctionsCount (count_down ar) = activeAuctionsCount ar - 1.
Proof. intros H. simpl. apply int64_small. lia. Qed.

Lemma count_up_exact ar :
  - 2 ^ 63 ≤ activeAuctionsCount ar < 2 ^ 63 - 1 →
  activeAuctionsCount (count_up ar) = activeAuctionsCount ar + 1.
Proof. intros H. simpl. apply int64_small. lia. Qed.


(** ** The counter and the monitors *)

Lemma slots_held_app gs1 gs2 :
  slots_held (gs1 ++ gs2) = slots_held gs1 + slots_held gs2.
Proof.
  unfold slots_held. rewrite List.filter_app, length_app. lia.
Qed.

Lemma slots_held_nonneg gs : 0 ≤ slots_held gs.
Proof. unfold slots_held. lia. Qed.

Lemma slots_held_one g :
  slots_held [g] = if holds_slot g then 1 else 0.
Proof. unfold slots_held. simpl. by destruct (holds_slot g). Qed.

Lemma slots_held_split gs i g :
  gs !! i = Some g →
  slots_held gs
  = slots_held (take i gs) + slots_held [g] + slots_held (drop (S i) gs).
Proof.
  intros Hg. rewrite <- (take_drop_middle gs i g Hg) at 1.
  rewrite slots_held_app. change (g :: drop (S i) gs)
    with ([g] ++ drop (S i) gs).
  rewrite slots_held_app. lia.
Qed.

Ltac count_held :=
  unfold slots_held; cbn [List.filter holds_slot length fst snd];
  try split; try done; lia.

Lemma wait_and_close_count now up self next auctionId timer ar :
  holds_slot self = true → holds_slot next = true →
  let '(ar', k, sp) := wait_and_close now up self next auctionId timer ar in
  activeAuctionsCount ar' = activeAuctionsCount ar
  ∧ slots_held k + slots_held sp ≤ 1.
Proof.
  intros Hself Hnext. unfold wait_and_close.
  destruct (time.expired now timer).
  - destruct up.
    + rewrite UpdateAuctionStatus_up. split; [done|].
      rewrite slots_held_one, Hnext. count_held.
    + rewrite UpdateAuctionStatus_down. count_held.
  - split; [done|]. rewrite slots_held_one, Hself. count_held.
Qed.

(** One stretch of a goroutine: the counter grows by one at most, and it
    keeps covering the monitors, a monitor that runs being covered by the
    counter before. *)
Lemma exec_count env now up g ar :
  0 ≤ activeAuctionsCount ar < 2 ^ 63 - 1 →
  slots_held [g] ≤ activeAuctionsCount ar →
  let '(ar', k, sp) := exec env now up g ar in
  activeAuctionsCount ar' ≤ activeAuctionsCount ar + 1
  ∧ slots_held k + slots_held sp - slots_held [g]
    ≤ activeAuctionsCount ar' - activeAuctionsCount ar.
Proof.
  intros Hrange Hcover.
  destruct g as [a|a|a|a|id t| | |[|d l]|d l|id t|id t| ];
    rewrite slots_held_one in *; cbn [exec holds_slot] in *.
  - destruct (checkActiveAuctionsLimit env ar); count_held.
  - destruct (CreateAuction_insert env up a ar) as [ar'|] eqn:E.
    + apply CreateAuction_insert_Some in E as [_ ->]. simpl. count_held.
    + count_held.
  - rewrite count_up_exact by lia. count_held.
  - count_held.
  - pose proof (wait_and_close_count now up (G_Monitor_wait id t)
                  G_Monitor_release id t ar eq_refl eq_refl) as H.
    destruct (wait_and_close _ _ _ _ _ _ _) as [[ar' k] sp].
    destruct H as [-> H]. lia.
  - rewrite count_down_exact by lia. count_held.
  - destruct (mongo.Find up _ (Collection ar)); count_held.
  - count_held.
  - destruct (activeAuctionsCount ar <? getMaxConcurrentAuctions env).
    + rewrite count_up_exact by lia. count_held.
    + count_held.
  - rewrite UpdateAuctionStatus_count. count_held.
  - destruct (time.Sub t now <=? 0).
    + rewrite UpdateAuctionStatus_count. count_held.
    + count_held.
  - pose proof (wait_and_close_count now up (G_MonitorEnd_wait id t)
                  G_MonitorEnd_release id t ar eq_refl eq_refl) as H.
    destruct (wait_and_close _ _ _ _ _ _ _) as [[ar' k] sp].
    destruct H as [-> H]. lia.
  - rewrite count_down_exact by lia. count_held.
Qed.





(** The decrement has no guard of its own: on a hand-built repository
    whose counter is zero, either monitor's release gives -1.  No such
    state, a release pending on a counter at zero, is reached from the
    start of the process, as the next theorem shows. *)
Lemma release_at_zero_gives_minus_one :
  activeAuctionsCount empty_repo = 0
  ∧ activeAuctionsCount
      (exec (sample_env None) sample_now true G_Monitor_release empty_repo).1.1
    = -1
  ∧ activeAuctionsCount
      (exec (sample_env None) sample_now true G_MonitorEnd_release
         empty_repo).1.1
    = -1.
Proof. repeat split. Qed.



(** ** Recovery of an overdue auction *)

Lemma Sub_nonpos t u : t ≤ u → time.Sub t u ≤ 0.
Proof.
  unfold time.Sub, time.minDuration, time.maxDuration. intros Htu.
  destruct (Z.ltb_spec (t - u) (- 2 ^ 63)); [lia|].
  destruct (Z.ltb_spec (2 ^ 63 - 1) (t - u)); lia.
Qed.

Lemma idle_step e p :
  goroutines p = [] → no_new_auction e →
  goroutines (step e p) = []
  ∧ activeAuctionsCount (repo (step e p)) = activeAuctionsCount (repo p).
Proof.
  intros Hgs He. destruct e as [dt|a|id st up|i up]; simpl; try done.
  - split; [done|apply UpdateAuctionStatus_count].
  - by rewrite Hgs.
Qed.

Lemma idle_run es p :
  goroutines p = [] → Forall no_new_auction es →
  activeAuctionsCount (repo (run es p)) = activeAuctionsCount (repo p).
Proof.
  intros Hgs Hes. revert p Hgs.
  induction Hes as [|e es He _ IH]; intros p Hgs; [done|].
  rewrite run_cons. destruct (idle_step e p Hgs He) as [Hgs' Hc].
  rewrite IH by done. exact Hc.
Qed.

(** C2, evaluated on the code.  The recovery loop admits a stored auction
    whatever its end time, and the monitor of an auction already past its
    end time closes it and returns without touching the counter.  So after
    the recovery of a store holding one auction that ended an hour before
    the start, the auction is Completed, no goroutine is left, and the
    counter is 1 and stays 1 as long as no auction is created. *)
Theorem overdue_auction_keeps_its_slot :
  (∀ env t up auction rest ar,
     activeAuctionsCount ar < getMaxConcurrentAuctions env →
     exec env t up (G_Restart_loop (auction :: rest)) ar
     = (count_up ar, [G_Restart_loop rest],
        [G_MonitorEnd_arm (Id auction) (time.Unix (EndTime auction) 0)]))
  ∧ (∀ env now up auctionId endTime ar,
       endTime ≤ now →
       exec env now up (G_MonitorEnd_arm auctionId endTime) ar
       = ((UpdateAuctionStatus up auctionId Completed ar).1, [], [])
       ∧ activeAuctionsCount (UpdateAuctionStatus up auctionId Completed ar).1
         = activeAuctionsCount ar)
  ∧ let p := run recovery_of_one
               (boot (sample_env None) sample_now overdue_database) in
    status_of "a1" (repo p) = Some Completed
    ∧ goroutines p = []
    ∧ activeAuctionsCount (repo p) = 1
    ∧ ∀ es, Forall no_new_auction es →
        activeAuctionsCount (repo (run es p)) = 1.
Proof.
  split.
  { intros env t up auction rest ar Hlt. cbn [exec].
    by rewrite (proj2 (Z.ltb_lt _ _) Hlt). }
  split.
  { intros env now up auctionId endTime ar Hpast. split.
    - cbn [exec]. pose proof (Sub_nonpos endTime now Hpast).
      by destruct (Z.leb_spec (time.Sub endTime now) 0); [|lia].
    - apply UpdateAuctionStatus_count. }
  cbv zeta. split; [reflexivity|]. split; [reflexivity|].
  split; [reflexivity|].
  intros es Hes. by rewrite idle_run.
Qed.

(** ** The ceiling under concurrent creations *)

(** A call of [CreateAuction] that nothing interrupts, on a counter between
    zero and the ceiling, leaves it there. *)
Lemma CreateAuction_uninterrupted_ceiling env up a ar :
  0 ≤ activeAuctionsCount ar ≤ getMaxConcurrentAuctions env →
  0 ≤ activeAuctionsCount (CreateAuction env up a ar).1.1
    ≤ getMaxConcurrentAuctions env.
Proof.
  unfold CreateAuction, checkActiveAuctionsLimit, getMaxConcurrentAuctions.
  intros Hc. destruct (Z.ltb_spec (activeAuctionsCount ar) 50); simpl.
  - destruct (CreateAuction_insert env up a ar) as [ar'|] eqn:E; [|done].
    apply CreateAuction_insert_Some in E as [_ ->].
    cbn [fst]. rewrite count_up_exact; simpl; lia.
  - done.
Qed.

(** C1, evaluated on the code.  [CreateAuction] checks the counter in one
    critical section and increments it in another: fifty-one callers that
    all pass the check before any of them increments all create their
    auction, and the counter reaches 51 over a ceiling of 50. *)
Theorem racing_creations_exceed_ceiling :
  let p := run (race 51) (boot (sample_env None) sample_now ∅) in
  activeAuctionsCount (repo p) = 51
  ∧ size (Collection (repo p)) = 51%nat
  ∧ getMaxConcurrentAuctions (env p) = 50.
Proof. cbv zeta. split; [|split]; vm_compute; reflexivity. Qed.


(** ** Further properties: documents, creation, sequences of creations *)

(** X1.  Nothing deletes a document or rewrites its payload: whatever the
    callers, the timers, the recovery pass and the scheduler do, a stored
    document is still stored under the same id afterwards, with the same
    id, product name, category, description, condition, timestamp and end
    time. *)
Theorem documents_outlive_every_run
    (p : Process) (es : list Event) (id : string) (d : AuctionEntityMongo) :
  Collection (repo p) !! id = Some d →
  ∃ d', Collection (repo (run es p)) !! id = Some d'
        ∧ Id d' = Id d ∧ ProductName d' = ProductName d
        ∧ Category d' = Category d ∧ Description d' = Description d
        ∧ Condition d' = Condition d ∧ Timestamp d' = Timestamp d
        ∧ EndTime d' = EndTime d.
Proof.
  intros Hd. destruct (run_keeps es p id d Hd) as (d' & Hd' & Hpay).
  exists d'. split; [exact Hd'|exact Hpay].
Qed.

(** Witness of X1: the overdue auction through its recovery and a caller
    reopening it. *)
Lemma documents_outlive_every_run_witness :
  ∃ d', Collection
          (repo (run (recovery_of_one
                        ++ [Call_UpdateAuctionStatus "a1" Active true])
                   (boot (sample_env None) sample_now overdue_database)))
          !! "a1" = Some d'
        ∧ EndTime d' = 1699996400.
Proof.
  destruct (documents_outlive_every_run
              (boot (sample_env None) sample_now overdue_database)
              (recovery_of_one ++ [Call_UpdateAuctionStatus "a1" Active true])
              "a1" (sample_doc "a1" Active 1699992800 1699996400) eq_refl)
    as (d' & Hd' & _ & _ & _ & _ & _ & _ & He).
  exists d'. split; [exact Hd'|exact He].
Defined.

Lemma CreateAuction_full env up a ar :
  getMaxConcurrentAuctions env ≤ activeAuctionsCount ar →
  CreateAuction env up a ar
  = (ar, [],
     Some (NewInternalServerError "Maximum concurrent auctions limit reached")).
Proof.
  intros Hfull. unfold CreateAuction, checkActiveAuctionsLimit.
  by destruct (Z.ltb_spec (activeAuctionsCount ar)
                 (getMaxConcurrentAuctions env)); [lia|].
Qed.

Lemma CreateAuction_fresh env a ar :
  - 2 ^ 63 ≤ activeAuctionsCount ar < getMaxConcurrentAuctions env →
  Collection ar !! auction_entity.Id a = None →
  CreateAuction env true a ar
  = ({| Collection :=
          <[auction_entity.Id a := auctionEntityMongo env a]> (Collection ar);
        activeAuctionsCount := activeAuctionsCount ar + 1 |},
     [G_Monitor_arm a], None).
Proof.
  intros Hc Hfresh.
  unfold CreateAuction, checkActiveAuctionsLimit, CreateAuction_insert,
    mongo.InsertOne.
  destruct (Z.ltb_spec (activeAuctionsCount ar)
              (getMaxConcurrentAuctions env)); [|lia].
  cbn [negb Id auctionEntityMongo]. rewrite Hfresh.
  unfold count_up, with_count, with_Collection. simpl.
  rewrite int64_small; [done|]. unfold getMaxConcurrentAuctions in *. lia.
Qed.

Lemma CreateAuction_not_inserted env up a ar :
  activeAuctionsCount ar < getMaxConcurrentAuctions env →
  up = false ∨ is_Some (Collection ar !! auction_entity.Id a) →
  CreateAuction env up a ar
  = (ar, [], Some (NewInternalServerError "Error trying to insert auction")).
Proof.
  intros Hc Hno.
  unfold CreateAuction, checkActiveAuctionsLimit, CreateAuction_insert,
    mongo.InsertOne.
  destruct (Z.ltb_spec (activeAuctionsCount ar)
              (getMaxConcurrentAuctions env)); [|lia].
  cbn [negb Id auctionEntityMongo].
  destruct up; [|done]. destruct Hno as [|[d Hd]]; [done|]. by rewrite Hd.
Qed.

(** X2.  What decides a call of [CreateAuction] that nothing interrupts:
    it returns no error exactly when the counter is below 50, the store
    answers and no document has the auction's id.  At 50 or more it
    returns the limit error, and below 50 with a store that does not
    answer or an id already stored it returns the insert error. *)
Theorem CreateAuction_succeeds_iff
    (env : Env) (up : bool) (auctionEntity : Auction)
    (ar : AuctionRepository) :
  ((CreateAuction env up auctionEntity ar).2 = None
   ↔ activeAuctionsCount ar < 50 ∧ up = true
     ∧ Collection ar !! auction_entity.Id auctionEntity = None)
  ∧ (50 ≤ activeAuctionsCount ar →
     (CreateAuction env up auctionEntity ar).2
     = Some (NewInternalServerError
               "Maximum concurrent auctions limit reached"))
  ∧ (activeAuctionsCount ar < 50 →
     up = false
     ∨ is_Some (Collection ar !! auction_entity.Id auctionEntity) →
     (CreateAuction env up auctionEntity ar).2
     = Some (NewInternalServerError "Error trying to insert auction")).
Proof.
  split; [|split].
  - split.
    + intros Hok.
      destruct (Z.lt_ge_cases (activeAuctionsCount ar) 50) as [Hlt|Hge].
      * split; [done|].
        destruct up;
          [|by rewrite CreateAuction_not_inserted in Hok by auto].
        split; [done|].
        destruct (Collection ar !! auction_entity.Id auctionEntity)
          as [d|] eqn:Hd; [|done].
        rewrite CreateAuction_not_inserted in Hok; [done|done|].
        right. by rewrite Hd.
      * by rewrite CreateAuction_full in Hok.
    + intros (Hlt & -> & Hfresh).
      unfold CreateAuction, checkActiveAuctionsLimit, CreateAuction_insert,
        mongo.InsertOne.
      destruct (Z.ltb_spec (activeAuctionsCount ar)
                  (getMaxConcurrentAuctions env)) as [|Hge];
        [|unfold getMaxConcurrentAuctions in Hge; lia].
      cbn [negb Id auctionEntityMongo]. by rewrite Hfresh.
  - intros Hge. by rewrite CreateAuction_full.
  - intros Hlt Hno. by rewrite CreateAuction_not_inserted.
Qed.

(** X3.  A successful creation, read back.  On a counter below the
    ceiling, with the store answering and a fresh id, [CreateAuction]
    returns no error, starts one monitor for the auction and adds one to
    the counter; the store gains exactly the auction's id, the document
    under it carries the entity's id, names, description, condition and
    status, and every other id reads as before.  Creating the same auction
    again is refused and leaves the repository as it is. *)
Theorem CreateAuction_round_trip
    (env : Env) (auctionEntity : Auction) (ar : AuctionRepository) :
  - 2 ^ 63 ≤ activeAuctionsCount ar < 50 →
  Collection ar !! auction_entity.Id auctionEntity = None →
  let '(ar', started, err) := CreateAuction env true auctionEntity ar in
  err = None
  ∧ started = [G_Monitor_arm auctionEntity]
  ∧ activeAuctionsCount ar' = activeAuctionsCount ar + 1
  ∧ dom (Collection ar')
    = {[auction_entity.Id auctionEntity]} ∪ dom (Collection ar)
  ∧ (∃ d, Collection ar' !! auction_entity.Id auctionEntity = Some d
          ∧ Id d = auction_entity.Id auctionEntity
          ∧ ProductName d = auction_entity.ProductName auctionEntity
          ∧ Category d = auction_entity.Category auctionEntity
          ∧ Description d = auction_entity.Description auctionEntity
          ∧ Condition d = auction_entity.Condition auctionEntity
          ∧ Status d = auction_entity.Status auctionEntity)
  ∧ (∀ id, id ≠ auction_entity.Id auctionEntity →
           Collection ar' !! id = Collection ar !! id)
  ∧ (∀ up, (CreateAuction env up auctionEntity ar').1 = (ar', [])
           ∧ (CreateAuction env up auctionEntity ar').2 ≠ None).
Proof.
  intros Hc Hfresh. rewrite CreateAuction_fresh by done.
  split; [done|]. split; [done|]. split; [done|]. cbn [Collection].
  split; [apply dom_insert_L|].
  split.
  { exists (auctionEntityMongo env auctionEntity).
    split; [apply lookup_insert_eq|]. by repeat split. }
  split.
  { intros id Hid. by apply lookup_insert_ne. }
  intros up.
  set (ar' := {| Collection := _; activeAuctionsCount := _ |}).
  destruct (Z.lt_ge_cases (activeAuctionsCount ar')
              (getMaxConcurrentAuctions env)) as [Hlt|Hge].
  - rewrite CreateAuction_not_inserted; [done|done|].
    right. subst ar'. cbn [Collection]. rewrite lookup_insert_eq. by eexists.
  - by rewrite CreateAuction_full.
Qed.

(** Witness of X3: the sample auction created in an empty repository. *)
Lemma CreateAuction_round_trip_witness :
  (CreateAuction (sample_env None) true (sample_auction "a1") empty_repo).2
  = None
  ∧ activeAuctionsCount
      (CreateAuction (sample_env None) true (sample_auction "a1")
         empty_repo).1.1 = 1.
Proof.
  pose proof (CreateAuction_round_trip (sample_env None) (sample_auction "a1")
                empty_repo) as H.
  destruct (CreateAuction (sample_env None) true (sample_auction "a1")
              empty_repo) as [[ar' started] err].
  destruct H as (Herr & _ & Hcount & _); [split; vm_compute; congruence|
                                          reflexivity|].
  split; [exact Herr|exact Hcount].
Defined.





(** ** Further properties: the life of a created auction *)

Lemma step_Run_at e now ar gs1 g gs2 up :
  step (Run (length gs1) up)
    {| env := e; clock := now; repo := ar; goroutines := gs1 ++ g :: gs2 |}
  = {| env := e; clock := now; repo := (exec e now up g ar).1.1;
       goroutines := gs1 ++ (exec e now up g ar).1.2 ++ gs2
                       ++ (exec e now up g ar).2 |}.
Proof.
  unfold step. cbn [goroutines env clock repo].
  rewrite list_lookup_middle by done.
  destruct (exec e now up g ar) as [[ar' k] sp].
  rewrite take_app_length.
  replace (drop (S (length gs1)) (gs1 ++ g :: gs2)) with gs2; [done|].
  rewrite (cons_middle g gs1 gs2), (assoc_L (++)).
  symmetry. apply drop_app_length'. rewrite length_app. simpl. lia.
Qed.

Lemma step_Tick e now ar gs dt :
  step (Tick dt) {| env := e; clock := now; repo := ar; goroutines := gs |}
  = {| env := e; clock := now + Z.of_N dt; repo := ar; goroutines := gs |}.
Proof. reflexivity. Qed.

(** The call and its monitor up to the armed timer. *)
Lemma create_and_arm e now ar gs a :
  - 2 ^ 63 ≤ activeAuctionsCount ar < 50 →
  Collection ar !! auction_entity.Id a = None →
  run [Call_CreateAuction a; Run (length gs) true; Run (length gs) true;
       Run (length gs) true; Run (length gs) true]
      {| env := e; clock := now; repo := ar; goroutines := gs |}
  = {| env := e; clock := now;
       repo := {| Collection :=
                    <[auction_entity.Id a := auctionEntityMongo e a]>
                      (Collection ar);
                  activeAuctionsCount := activeAuctionsCount ar + 1 |};
       goroutines :=
         gs ++ [G_Monitor_wait (auction_entity.Id a)
                  (time.NewTimer now (getAuctionDuration e))] |}.
Proof.
  intros Hc Hfresh.
  change [Call_CreateAuction a; Run (length gs) true; Run (length gs) true;
          Run (length gs) true; Run (length gs) true]
    with ([Call_CreateAuction a; Run (length gs) true; Run (length gs) true;
           Run (length gs) true] ++ [Run (length gs) true]).
  rewrite run_app.
  pose proof (CreateAuction_uninterrupted true a
                {| env := e; clock := now; repo := ar; goroutines := gs |})
    as Hrun.
  cbn [env clock repo goroutines] in Hrun. rewrite Hrun.
  rewrite CreateAuction_fresh
    by (unfold getMaxConcurrentAuctions; first [lia|done]).
  cbn [fst snd run fold_left]. rewrite step_Run_last.
  cbn [exec fst snd]. done.
Qed.

(** X5.  A created auction is closed once its interval has passed.  When
    a call of [CreateAuction] and its monitor are scheduled alone, on a
    counter below the ceiling, a fresh id and a store that answers, and the
    time that passes after the timer was armed is at least the configured
    duration, the auction ends Completed with the rest of its document as
    created, the counter is back to what it was, the monitor is gone and
    the other goroutines are as they were. *)
Theorem created_auction_closes_after_its_interval
    (p : Process) (auctionEntity : Auction) (dt : N) :
  - 2 ^ 63 ≤ activeAuctionsCount (repo p) < 50 →
  Collection (repo p) !! auction_entity.Id auctionEntity = None →
  getAuctionDuration (env p) ≤ Z.of_N dt →
  let q := run (create_then_wait auctionEntity (length (goroutines p)) dt) p
  in
  goroutines q = goroutines p
  ∧ activeAuctionsCount (repo q) = activeAuctionsCount (repo p)
  ∧ Collection (repo q)
    = <[auction_entity.Id auctionEntity :=
          set_status Completed (auctionEntityMongo (env p) auctionEntity)]>
        (Collection (repo p))
  ∧ clock q = clock p + Z.of_N dt.
Proof.
  destruct p as [e now ar gs]. cbn [env clock repo goroutines].
  intros Hc Hfresh Hdt. cbv zeta. unfold create_then_wait.
  change [Call_CreateAuction auctionEntity; Run (length gs) true;
          Run (length gs) true; Run (length gs) true; Run (length gs) true;
          Tick dt; Run (length gs) true; Run (length gs) true]
    with ([Call_CreateAuction auctionEntity; Run (length gs) true;
           Run (length gs) true; Run (length gs) true; Run (length gs) true]
          ++ [Tick dt; Run (length gs) true; Run (length gs) true]).
  rewrite run_app, create_and_arm by done.
  cbn [run fold_left]. rewrite step_Tick.
  rewrite step_Run_last. cbn [exec]. unfold wait_and_close.
  rewrite (proj2 (expired_NewTimer now (getAuctionDuration e)
                    (now + Z.of_N dt))) by lia.
  rewrite UpdateAuctionStatus_up. cbn [fst snd app].
  rewrite step_Run_last. cbn [exec fst snd goroutines repo clock].
  rewrite !app_nil_r. split; [done|]. split.
  - cbn. rewrite int64_small; lia.
  - split; [|done]. cbn. apply alter_insert_eq.
Qed.

(** Witness of X5: the sample auction with a three-second interval, in a
    fresh process, four seconds later. *)
Lemma created_auction_closes_after_its_interval_witness :
  let p := boot (sample_env (Some (3 * time.Second))) sample_now ∅ in
  let q := run (create_then_wait (sample_auction "a1") 1 4000000000) p in
  status_of "a1" (repo q) = Some Completed
  ∧ activeAuctionsCount (repo q) = 0.
Proof.
  cbv zeta.
  destruct (created_auction_closes_after_its_interval
              (boot (sample_env (Some (3 * time.Second))) sample_now ∅)
              (sample_auction "a1") 4000000000)
    as (_ & Hcount & Hcoll & _).
  - vm_compute. split; congruence.
  - reflexivity.
  - vm_compute. congruence.
  - split; [|exact Hcount].
    unfold status_of.
    change (length (goroutines
              (boot (sample_env (Some (3 * time.Second))) sample_now ∅)))
      with 1%nat in Hcoll.
    rewrite Hcoll. reflexivity.
Defined.

(** X6.  A created auction stays open until its interval has passed.  In
    the same schedule, when less time than the configured duration has
    passed, scheduling the monitor changes nothing: the document is the one
    created, with the status the entity came with, the counter holds one
    more, and the monitor is still waiting on its timer. *)
Theorem created_auction_stays_open_before_its_interval
    (p : Process) (auctionEntity : Auction) (dt : N) :
  - 2 ^ 63 ≤ activeAuctionsCount (repo p) < 50 →
  Collection (repo p) !! auction_entity.Id auctionEntity = None →
  Z.of_N dt < getAuctionDuration (env p) →
  let q := run (create_then_wait auctionEntity (length (goroutines p)) dt) p
  in
  goroutines q
  = goroutines p
      ++ [G_Monitor_wait (auction_entity.Id auctionEntity)
            (time.NewTimer (clock p) (getAuctionDuration (env p)))]
  ∧ activeAuctionsCount (repo q) = activeAuctionsCount (repo p) + 1
  ∧ Collection (repo q)
    = <[auction_entity.Id auctionEntity :=
          auctionEntityMongo (env p) auctionEntity]> (Collection (repo p))
  ∧ status_of (auction_entity.Id auctionEntity) (repo q)
    = Some (auction_entity.Status auctionEntity).
Proof.
  destruct p as [e now ar gs]. cbn [env clock repo goroutines].
  intros Hc Hfresh Hdt. cbv zeta. unfold create_then_wait.
  change [Call_CreateAuction auctionEntity; Run (length gs) true;
          Run (length gs) true; Run (length gs) true; Run (length gs) true;
          Tick dt; Run (length gs) true; Run (length gs) true]
    with ([Call_CreateAuction auctionEntity; Run (length gs) true;
           Run (length gs) true; Run (length gs) true; Run (length gs) true]
          ++ [Tick dt; Run (length gs) true; Run (length gs) true]).
  rewrite run_app, create_and_arm by done.
  cbn [run fold_left]. rewrite step_Tick.
  assert (time.expired (now + Z.of_N dt)
            (time.NewTimer now (getAuctionDuration e)) = false) as Hnot.
  { destruct (time.expired _ _) eqn:E; [|done].
    apply expired_NewTimer in E. lia. }
  rewrite step_Run_last. cbn [exec]. unfold wait_and_close. rewrite Hnot.
  cbn [fst snd app]. rewrite step_Run_last. cbn [exec].
  unfold wait_and_close. rewrite Hnot. cbn [fst snd app goroutines repo].
  split; [done|]. split; [done|]. split; [done|].
  unfold status_of. cbn [Collection]. by rewrite lookup_insert_eq.
Qed.

(** Witness of X6: the same auction one second after its timer was
    armed. *)
Lemma created_auction_stays_open_before_its_interval_witness :
  let p := boot (sample_env (Some (3 * time.Second))) sample_now ∅ in
  let q := run (create_then_wait (sample_auction "a1") 1 1000000000) p in
  status_of "a1" (repo q) = Some Active
  ∧ activeAuctionsCount (repo q) = 1.
Proof.
  cbv zeta.
  destruct (created_auction_stays_open_before_its_interval
              (boot (sample_env (Some (3 * time.Second))) sample_now ∅)
              (sample_auction "a1") 1000000000)
    as (_ & Hcount & _ & Hstatus).
  - vm_compute. split; congruence.
  - reflexivity.
  - vm_compute. congruence.
  - split; [exact Hstatus|exact Hcount].
Defined.

(** ** Further properties: a close that fails *)

Lemma quiet_step e p :
  goroutines p = [] → no_caller e →
  goroutines (step e p) = [] ∧ repo (step e p) = repo p.
Proof.
  intros Hgs He. destruct e as [dt|a|id st up|i up]; simpl; try done.
  by rewrite Hgs.
Qed.

Lemma quiet_run es p :
  goroutines p = [] → Forall no_caller es →
  goroutines (run es p) = [] ∧ repo (run es p) = repo p.
Proof.
  intros Hgs Hes. revert p Hgs.
  induction Hes as [|e es He _ IH]; intros p Hgs; [done|].
  rewrite run_cons. destruct (quiet_step e p Hgs He) as [Hgs' Hrepo].
  destruct (IH _ Hgs') as [? ?]. split; [done|congruence].
Qed.

(** X7.  A close that fails is not tried again.  When the timer of the
    only monitor has expired and the store does not answer the status
    update, the monitor returns without the decrement; whatever the
    scheduler and the clock do afterwards, the repository stays as it was:
    the auction keeps its status and the counter keeps the slot. *)
Theorem failed_close_is_never_retried
    (p : Process) (auctionId : string) (timer : time.Timer)
    (es : list Event) :
  goroutines p = [G_Monitor_wait auctionId timer]
  ∨ goroutines p = [G_MonitorEnd_wait auctionId timer] →
  time.expired (clock p) timer = true →
  Forall no_caller es →
  goroutines (run (Run 0 false :: es) p) = []
  ∧ repo (run (Run 0 false :: es) p) = repo p.
Proof.
  intros Hgs Hexp Hes. rewrite run_cons.
  assert (goroutines (step (Run 0 false) p) = []
          ∧ repo (step (Run 0 false) p) = repo p) as [Hgs' Hrepo].
  { destruct p as [e now ar gs]. cbn [goroutines clock] in *.
    destruct Hgs as [-> | ->]; cbn [step goroutines lookup list_lookup];
      simpl; unfold wait_and_close; rewrite Hexp; simpl; done. }
  destruct (quiet_run es _ Hgs' Hes) as [? ?]. split; [done|congruence].
Qed.

(** Witness of X7: one counted auction whose close fails, then time
    passing and the scheduler looking for goroutines. *)
Lemma failed_close_is_never_retried_witness :
  let ar := {| Collection :=
                 {[ "a1" := sample_doc "a1" Active 1699999990 1700000000 ]};
               activeAuctionsCount := 1 |} in
  let p := {| env := sample_env None; clock := sample_now; repo := ar;
              goroutines :=
                [G_Monitor_wait "a1" (time.NewTimer sample_now 0)] |} in
  repo (run [Run 0 false; Tick 5000000000; Run 0 true] p) = ar.
Proof.
  cbv zeta.
  refine (proj2 (failed_close_is_never_retried _ "a1"
                   (time.NewTimer sample_now 0)
                   [Tick 5000000000; Run 0 true] _ _ _)).
  - left. reflexivity.
  - reflexivity.
  - repeat constructor.
Defined.

(** ** Further properties: the ceiling without creations *)

Lemma wait_and_close_calm now up self next auctionId timer ar :
  in_CreateAuction self = false → in_CreateAuction next = false →
  Forall (λ g, in_CreateAuction g = false)
    ((wait_and_close now up self next auctionId timer ar).1.2
       ++ (wait_and_close now up self next auctionId timer ar).2).
Proof.
  intros Hself Hnext. unfold wait_and_close.
  destruct (time.expired now timer); [destruct up|]; simpl;
    repeat constructor; done.
Qed.

Lemma exec_calm env now up g ar :
  in_CreateAuction g = false →
  Forall (λ g', in_CreateAuction g' = false)
    ((exec env now up g ar).1.2 ++ (exec env now up g ar).2).
Proof.
  intros Hg.
  destruct g as [a|a|a|a|id t| | |[|d l]|d l|id t|id t| ];
    try discriminate Hg; cbn [exec].
  - repeat constructor.
  - by apply wait_and_close_calm.
  - constructor.
  - destruct (mongo.Find up _ (Collection ar)); repeat constructor.
  - constructor.
  - destruct (activeAuctionsCount ar <? getMaxConcurrentAuctions env);
      repeat constructor.
  - repeat constructor.
  - destruct (time.Sub t now <=? 0); repeat constructor.
  - by apply wait_and_close_calm.
  - constructor.
Qed.

Lemma exec_ceiling env now up g ar :
  in_CreateAuction g = false →
  0 ≤ activeAuctionsCount ar ≤ 50 →
  slots_held [g] ≤ activeAuctionsCount ar →
  activeAuctionsCount (exec env now up g ar).1.1 ≤ 50.
Proof.
  intros Hg Hc Hcover.
  destruct g as [a|a|a|a|id t| | |[|d l]|d l|id t|id t| ];
    try discriminate Hg; rewrite slots_held_one in Hcover;
    cbn [exec holds_slot] in *; try (cbn [fst]; lia).
  - pose proof (wait_and_close_count now up (G_Monitor_wait id t)
                  G_Monitor_release id t ar eq_refl eq_refl) as H.
    destruct (wait_and_close _ _ _ _ _ _ _) as [[ar' k] sp].
    destruct H as [H _]. cbn [fst]. lia.
  - cbn [fst]. rewrite count_down_exact; lia.
  - destruct (mongo.Find up _ (Collection ar)); cbn [fst]; lia.
  - unfold getMaxConcurrentAuctions.
    destruct (Z.ltb_spec (activeAuctionsCount ar) 50); cbn [fst]; [|lia].
    rewrite count_up_exact; lia.
  - cbn [fst]. rewrite UpdateAuctionStatus_count. lia.
  - destruct (time.Sub t now <=? 0); cbn [fst]; [|lia].
    rewrite UpdateAuctionStatus_count. lia.
  - pose proof (wait_and_close_count now up (G_MonitorEnd_wait id t)
                  G_MonitorEnd_release id t ar eq_refl eq_refl) as H.
    destruct (wait_and_close _ _ _ _ _ _ _) as [[ar' k] sp].
    destruct H as [H _]. cbn [fst]. lia.
  - cbn [fst]. rewrite count_down_exact; lia.
Qed.

Lemma step_calm e p : no_new_auction e → calm p → calm (step e p).
Proof.
  unfold calm. intros He [Hquiet [Hlo Hhi]].
  pose proof (slots_held_nonneg (goroutines p)) as H0.
  destruct e as [dt|a|id st up|i up]; simpl; try done.
  - rewrite UpdateAuctionStatus_count. done.
  - destruct (goroutines p !! i) as [g|] eqn:Hg; [|done].
    pose proof (slots_held_split _ _ _ Hg) as Hsplit.
    pose proof (slots_held_nonneg (take i (goroutines p))).
    pose proof (slots_held_nonneg (drop (S i) (goroutines p))).
    pose proof (slots_held_nonneg [g]).
    assert (in_CreateAuction g = false) as Hgq.
    { by apply (Forall_lookup_1 _ _ _ _ Hquiet Hg). }
    pose proof (exec_calm (env p) (clock p) up g (repo p) Hgq) as Hcalm.
    pose proof (exec_ceiling (env p) (clock p) up g (repo p) Hgq) as Hceil.
    pose proof (exec_count (env p) (clock p) up g (repo p)) as Hex.
    destruct (exec (env p) (clock p) up g (repo p)) as [[ar k] sp].
    cbn [fst snd] in *. apply Forall_app in Hcalm as [Hk Hsp].
    destruct Hex as [Hup Hcov]; [lia..|]. simpl. split.
    + apply Forall_app. split; [by apply Forall_take|].
      apply Forall_app. split; [done|].
      apply Forall_app. split; [by apply Forall_drop|done].
    + rewrite !slots_held_app. split; [lia|]. apply Hceil; lia.
Qed.

Lemma boot_calm e now db : calm (boot e now db).
Proof.
  unfold calm, boot, slots_held. simpl. split; [|lia].
  by repeat constructor.
Qed.

(** X8.  Without calls of [CreateAuction] the ceiling holds under every
    schedule.  From the start of the process, however the recovery pass,
    the monitors, the clock and callers of [UpdateAuctionStatus] are
    interleaved, the counter stays between 0 and 50 and no goroutine is
    inside [CreateAuction]: the recovery loop tests and increments in one
    critical section. *)
Theorem recovery_alone_respects_ceiling
    (e : Env) (now : time.Time) (database : gmap string AuctionEntityMongo)
    (es : list Event) :
  Forall no_new_auction es →
  let p := run es (boot e now database) in
  0 ≤ activeAuctionsCount (repo p) ≤ getMaxConcurrentAuctions (env p)
  ∧ Forall (λ g, in_CreateAuction g = false) (goroutines p).
Proof.
  intros Hes. cbv zeta.
  assert (calm (run es (boot e now database))) as [Hquiet [Hlo Hhi]].
  { pose proof (boot_calm e now database) as Hb.
    revert Hb. generalize (boot e now database).
    induction Hes as [|ev es Hev _ IH]; intros p Hp; [done|].
    rewrite run_cons. apply IH. by apply step_calm. }
  pose proof (slots_held_nonneg
                (goroutines (run es (boot e now database)))).
  unfold getMaxConcurrentAuctions. split; [lia|done].
Qed.

(** Witness of X8: the recovery of the overdue auction. *)
Lemma recovery_alone_respects_ceiling_witness :
  0 ≤ activeAuctionsCount
        (repo (run recovery_of_one
                 (boot (sample_env None) sample_now overdue_database)))
    ≤ 50.
Proof.
  refine (proj1 (recovery_alone_respects_ceiling (sample_env None) sample_now
                   overdue_database recovery_of_one _)).
  repeat constructor.
Defined.

(** ** Further properties: the recovery pass run on its own *)

Lemma close_each_cons d ds c :
  close_each (d :: ds) c
  = close_each ds (alter (set_status Completed) (Id d) c).
Proof. reflexivity. Qed.

Lemma close_each_lookup ds c id :
  close_each ds c !! id
  = if decide (id ∈ Id <$> ds) then set_status Completed <$> c !! id
    else c !! id.
Proof.
  revert c. induction ds as [|d ds IH]; intros c.
  { rewrite fmap_nil. by rewrite decide_False by apply not_elem_of_nil. }
  rewrite close_each_cons, IH, fmap_cons, lookup_alter.
  destruct (decide (Id d = id)) as [Heq|Hne].
  - subst id. rewrite (decide_True (P := Id d ∈ Id d :: _)) by left.
    destruct (decide (Id d ∈ Id <$> ds)); [|done].
    by destruct (c !! Id d).
  - destruct (decide (id ∈ Id <$> ds)) as [Hin|Hnotin].
    + by rewrite decide_True by (by right).
    + rewrite decide_False; [done|].
      intros [Heq|Hin]%elem_of_cons; [by apply Hne|by apply Hnotin].
Qed.

Lemma repo_eta ar :
  {| Collection := Collection ar; activeAuctionsCount := activeAuctionsCount ar |}
  = ar.
Proof. by destruct ar. Qed.

(** The loop of the recovery pass run to its end: it admits auctions while
    there is room under the ceiling and closes the others. *)
Lemma drain_Restart_loop env now activeAuctions :
  ∀ ar fuel,
    (2 * length activeAuctions + 1 ≤ fuel)%nat →
    - 2 ^ 63 ≤ activeAuctionsCount ar ≤ 50 →
    drain fuel env now true (G_Restart_loop activeAuctions) ar
    = ({| Collection :=
            close_each
              (drop (Z.to_nat (50 - activeAuctionsCount ar)) activeAuctions)
              (Collection ar);
          activeAuctionsCount :=
            activeAuctionsCount ar
            + Z.of_nat (min (Z.to_nat (50 - activeAuctionsCount ar))
                            (length activeAuctions)) |},
       recovered_monitor
         <$> take (Z.to_nat (50 - activeAuctionsCount ar)) activeAuctions,
       None).
Proof.
  induction activeAuctions as [|d l IH]; intros ar fuel Hfuel Hc.
  { destruct fuel as [|fuel]; [simpl in Hfuel; lia|].
    cbn [drain exec]. rewrite drop_nil, take_nil, Nat.min_0_r.
    cbn [close_each foldl fmap list_fmap length].
    rewrite Z.add_0_r. by rewrite repo_eta. }
  destruct fuel as [|fuel]; [simpl in Hfuel; lia|].
  cbn [length] in Hfuel. cbn [drain exec].
  unfold getMaxConcurrentAuctions.
  destruct (Z.ltb_spec (activeAuctionsCount ar) 50) as [Hlt|Hge].
  - rewrite IH by (first [lia | rewrite count_up_exact; lia]).
    rewrite count_up_exact by lia.
    replace (Z.to_nat (50 - activeAuctionsCount ar))
      with (S (Z.to_nat (50 - (activeAuctionsCount ar + 1)))) by lia.
    cbn [drop take fmap list_fmap length Nat.min app Collection count_up
         with_count].
    do 2 f_equal. f_equal. lia.
  - destruct fuel as [|fuel]; [lia|]. cbn [drain exec].
    rewrite UpdateAuctionStatus_up. cbn [fst].
    rewrite IH by (first [lia | done]).
    cbn [with_Collection activeAuctionsCount Collection].
    replace (Z.to_nat (50 - activeAuctionsCount ar)) with 0%nat by lia.
    cbn [drop take fmap list_fmap Nat.min app]. by rewrite close_each_cons.
Qed.

Lemma NoDup_fmap_filter {A B} (f : A → B) (sel : A → bool) (l : list A) :
  NoDup (f <$> l) → NoDup (f <$> List.filter sel l).
Proof.
  induction l as [|x l IH]; [done|].
  rewrite fmap_cons. intros [Hx Hl]%NoDup_cons. cbn [List.filter].
  destruct (sel x); [|by apply IH].
  rewrite fmap_cons. apply NoDup_cons. split; [|by apply IH].
  intros (y & Hy & Hin)%list_elem_of_fmap. apply Hx.
  apply list_elem_of_fmap. exists y. split; [done|].
  apply list_elem_of_In in Hin. apply List.filter_In in Hin as [Hin _].
  by apply list_elem_of_In.
Qed.

(** What the query of the recovery pass returns from a well-keyed store:
    the Active documents, each once. *)
Lemma Find_Active db :
  well_keyed db →
  ∃ activeAuctions,
    mongo.Find true (λ d, bool_decide (Status d = Active)) db
    = Some activeAuctions
    ∧ (∀ d, d ∈ activeAuctions ↔ db !! Id d = Some d ∧ Status d = Active)
    ∧ NoDup (Id <$> activeAuctions)
    ∧ (length activeAuctions ≤ size db)%nat.
Proof.
  intros Hkeys. eexists. split; [reflexivity|]. split; [|split].
  - intros d. rewrite list_elem_of_In, List.filter_In, <- list_elem_of_In.
    rewrite bool_decide_eq_true, list_elem_of_fmap. split.
    + intros [([k d'] & -> & Hin%elem_of_map_to_list) Hs].
      cbn [snd] in *. by rewrite (Hkeys k d' Hin).
    + intros [Hd Hs]. split; [|done]. exists (Id d, d). split; [done|].
      by apply elem_of_map_to_list.
  - apply NoDup_fmap_filter.
    replace (Id <$> (map_to_list db).*2) with ((map_to_list db).*1);
      [apply NoDup_fst_map_to_list|].
    rewrite <- list_fmap_compose. apply list_fmap_ext.
    intros i [k d] Hin%list_elem_of_lookup_2%elem_of_map_to_list.
    cbn. by rewrite (Hkeys k d Hin).
  - etransitivity; [apply List.filter_length_le|].
    by rewrite length_fmap, length_map_to_list.
Qed.

Lemma drain_Restart_find env now db fuel activeAuctions :
  mongo.Find true (λ d, bool_decide (Status d = Active)) db
  = Some activeAuctions →
  (2 * length activeAuctions + 2 ≤ fuel)%nat →
  drain fuel env now true G_Restart_find (NewAuctionRepository db).1
  = ({| Collection := close_each (drop 50 activeAuctions) db;
        activeAuctionsCount :=
          Z.of_nat (min 50 (length activeAuctions)) |},
     recovered_monitor <$> take 50 activeAuctions, None).
Proof.
  intros Hfind Hfuel. destruct fuel as [|fuel]; [lia|].
  cbn [drain exec NewAuctionRepository fst Collection]. rewrite Hfind.
  rewrite drain_Restart_loop by (cbn [activeAuctionsCount]; lia).
  cbn [activeAuctionsCount Collection app]. done.
Qed.

(** X9.  The recovery pass run on its own admits as many auctions as the
    ceiling allows.  Over a well-keyed store that answers, the pass
    returns; the query yields the Active documents, each once; a monitor
    is started, with the stored end time, for each of the first 50 of them
    and for nothing else; the counter ends at their number, 50 at most;
    and the documents beyond the first 50 are closed. *)
Theorem uninterrupted_recovery_admits_up_to_ceiling
    (env : Env) (now : time.Time) (database : gmap string AuctionEntityMongo)
    (fuel : nat) :
  well_keyed database →
  (2 * size database + 2 ≤ fuel)%nat →
  ∃ activeAuctions ar',
    mongo.Find true (λ d, bool_decide (Status d = Active)) database
    = Some activeAuctions
    ∧ (∀ d, d ∈ activeAuctions
            ↔ database !! Id d = Some d ∧ Status d = Active)
    ∧ NoDup (Id <$> activeAuctions)
    ∧ drain fuel env now true G_Restart_find
        (NewAuctionRepository database).1
      = (ar', recovered_monitor <$> take 50 activeAuctions, None)
    ∧ activeAuctionsCount ar'
      = Z.min (Z.of_nat (length activeAuctions)) 50
    ∧ Collection ar' = close_each (drop 50 activeAuctions) database.
Proof.
  intros Hkeys Hfuel.
  destruct (Find_Active database Hkeys)
    as (activeAuctions & Hfind & Hin & Hnodup & Hlen).
  eexists activeAuctions, _. split; [exact Hfind|].
  split; [exact Hin|]. split; [exact Hnodup|].
  split; [apply drain_Restart_find; [done|lia]|].
  cbn [activeAuctionsCount Collection]. split; [lia|done].
Qed.

(** Witness of X9: the store holding the overdue auction. *)
Lemma uninterrupted_recovery_admits_up_to_ceiling_witness :
  ∃ ar',
    drain 4 (sample_env None) sample_now true G_Restart_find
      (NewAuctionRepository overdue_database).1
    = (ar', [G_MonitorEnd_arm "a1" (time.Unix 1699996400 0)], None)
    ∧ activeAuctionsCount ar' = 1.
Proof.
  destruct (uninterrupted_recovery_admits_up_to_ceiling (sample_env None)
              sample_now overdue_database 4)
    as (activeAuctions & ar' & Hfind & _ & _ & Hdrain & Hcount & _).
  - intros id d. unfold overdue_database.
    intros [<- <-]%lookup_singleton_Some. reflexivity.
  - vm_compute. lia.
  - exists ar'. injection Hfind as <-.
    split; [exact Hdrain|exact Hcount].
Defined.

(** X10.  The recovery pass run on its own leaves no Active auction
    without a monitor.  Over a well-keyed store that answers, once the
    pass has returned every document that was Active either has a monitor
    started with its id and end time, the document being as it was, or is
    stored Completed with the rest of it unchanged; and a document that
    was Completed is stored as it was. *)
Theorem uninterrupted_recovery_leaves_no_orphan
    (env : Env) (now : time.Time) (database : gmap string AuctionEntityMongo)
    (fuel : nat) :
  well_keyed database →
  (2 * size database + 2 ≤ fuel)%nat →
  let '(ar', started, rest) :=
    drain fuel env now true G_Restart_find (NewAuctionRepository database).1
  in
  rest = None
  ∧ ∀ id d, database !! id = Some d →
      match Status d with
      | Active =>
          (recovered_monitor d ∈ started ∧ Collection ar' !! id = Some d)
          ∨ Collection ar' !! id = Some (set_status Completed d)
      | Completed => Collection ar' !! id = Some d
      end.
Proof.
  intros Hkeys Hfuel.
  destruct (Find_Active database Hkeys)
    as (activeAuctions & Hfind & Hin & Hnodup & Hlen).
  rewrite (drain_Restart_find env now database fuel activeAuctions)
    by (first [done|lia]).
  split; [done|]. intros id d Hd. cbn [Collection].
  pose proof (Hkeys id d Hd) as Hid. subst id.
  rewrite close_each_lookup, Hd. cbn [fmap option_fmap option_map].
  destruct (Status d) eqn:Hs.
  - assert (d ∈ activeAuctions) as Hd_in by (by apply Hin).
    destruct (decide (Id d ∈ Id <$> drop 50 activeAuctions))
      as [Hdrop|Hdrop]; [by right|].
    left. split; [|done]. apply list_elem_of_fmap_2.
    rewrite <- (take_drop 50 activeAuctions) in Hd_in.
    apply elem_of_app in Hd_in as [Htake|Hin_drop]; [done|].
    exfalso. apply Hdrop. by apply list_elem_of_fmap_2.
  - rewrite decide_False; [done|].
    intros (d' & Heq & Hd')%list_elem_of_fmap.
    assert (d' ∈ activeAuctions) as Hd'_in.
    { rewrite <- (take_drop 50 activeAuctions). apply elem_of_app. by right. }
    apply Hin in Hd'_in as [Hlook Hact]. rewrite <- Heq, Hd in Hlook.
    injection Hlook as <-. congruence.
Qed.

(** Witness of X10: the store holding the overdue auction. *)
Lemma uninterrupted_recovery_leaves_no_orphan_witness :
  (drain 4 (sample_env None) sample_now true G_Restart_find
     (NewAuctionRepository overdue_database).1).2 = None.
Proof.
  pose proof (uninterrupted_recovery_leaves_no_orphan (sample_env None)
                sample_now overdue_database 4) as H.
  destruct (drain 4 (sample_env None) sample_now true G_Restart_find
              (NewAuctionRepository overdue_database).1)
    as [[ar' started] rest].
  destruct H as [Hrest _]; [|vm_compute; lia|exact Hrest].
  intros id d. unfold overdue_database.
  intros [<- <-]%lookup_singleton_Some. reflexivity.
Defined.

(** *** A goroutine run on its own, inside the scheduler *)

Lemma wait_and_close_self now up self next auctionId timer ar :
  (length (wait_and_close now up self next auctionId timer ar).1.2 ≤ 1)%nat.
Proof.
  unfold wait_and_close.
  destruct (time.expired now timer); [destruct up|]; simpl; lia.
Qed.

Lemma exec_self env now up g ar :
  (length (exec env now up g ar).1.2 ≤ 1)%nat.
Proof.
  destruct g as [a|a|a|a|id t| | |[|d l]|d l|id t|id t| ]; cbn [exec];
    try apply wait_and_close_self; try (simpl; lia).
  - destruct (checkActiveAuctionsLimit env ar); simpl; lia.
  - destruct (CreateAuction_insert env up a ar); simpl; lia.
  - destruct (mongo.Find up _ (Collection ar)); simpl; lia.
  - destruct (activeAuctionsCount ar <? getMaxConcurrentAuctions env);
      simpl; lia.
  - destruct (time.Sub t now <=? 0); simpl; lia.
Qed.

(** [drain] is the scheduler picking the same goroutine again and again:
    some number of steps, at most the fuel, of goroutine [length gs1]
    leaves the repository of [drain], what [drain] says is left of the
    goroutine in its place, and the goroutines it started at the end. *)
Lemma drain_as_run e now up gs1 fuel :
  ∀ g ar gs2,
    ∃ k, (k ≤ fuel)%nat
      ∧ run (replicate k (Run (length gs1) up))
          {| env := e; clock := now; repo := ar;
             goroutines := gs1 ++ g :: gs2 |}
        = {| env := e; clock := now;
             repo := (drain fuel e now up g ar).1.1;
             goroutines :=
               gs1 ++ option_list (drain fuel e now up g ar).2 ++ gs2
                 ++ (drain fuel e now up g ar).1.2 |}.
Proof.
  induction fuel as [|fuel IH]; intros g ar gs2.
  { exists 0%nat. split; [done|]. cbn. by rewrite app_nil_r. }
  cbn [drain]. pose proof (exec_self e now up g ar) as Hself.
  pose proof (step_Run_at e now ar gs1 g gs2 up) as Hstep.
  destruct (exec e now up g ar) as [[ar' self] sp] eqn:E.
  cbn [fst snd] in *. destruct self as [|g' [|? ?]]; [| |simpl in Hself; lia].
  - exists 1%nat. split; [lia|]. cbn [replicate run fold_left].
    rewrite Hstep. done.
  - destruct (IH g' ar' (gs2 ++ sp)) as (k & Hk & Hrun).
    exists (S k). split; [lia|].
    cbn [replicate]. rewrite run_cons, Hstep. cbn [app].
    rewrite Hrun.
    destruct (drain fuel e now up g' ar') as [[ar'' sp'] rest].
    cbn [fst snd]. by rewrite <- !(assoc_L (++)).
Qed.

(** ** Further properties: creation racing the recovery query *)

(** X11.  An auction created before the recovery query runs is taken for
    a leftover of the previous run.  In a process started over an empty
    store, when a call of [CreateAuction] for an Active auction completes
    before the recovery goroutine makes its query, the query finds the new
    document and the loop admits it again: the auction has two monitors,
    one armed with the configured duration and one with its stored end
    time, and the counter stands at 2 for one auction. *)
Theorem auction_created_before_recovery_query_is_monitored_twice
    (e : Env) (now : time.Time) (auctionEntity : Auction) :
  auction_entity.Status auctionEntity = Active →
  let p := run [Call_CreateAuction auctionEntity; Run 1 true; Run 1 true;
                Run 1 true; Run 0 true; Run 0 true] (boot e now ∅) in
  goroutines p
  = [G_Restart_loop []; G_Monitor_arm auctionEntity;
     recovered_monitor (auctionEntityMongo e auctionEntity)]
  ∧ activeAuctionsCount (repo p) = 2
  ∧ Collection (repo p)
    = {[ auction_entity.Id auctionEntity
         := auctionEntityMongo e auctionEntity ]}.
Proof.
  intros Hactive. cbv zeta.
  change [Call_CreateAuction auctionEntity; Run 1 true; Run 1 true;
          Run 1 true; Run 0 true; Run 0 true]
    with ([Call_CreateAuction auctionEntity; Run 1 true; Run 1 true;
           Run 1 true] ++ [Run 0 true; Run 0 true]).
  rewrite run_app.
  change (boot e now ∅)
    with {| env := e; clock := now; repo := empty_repo;
            goroutines := [G_Restart_find] |}.
  pose proof (CreateAuction_uninterrupted true auctionEntity
                {| env := e; clock := now; repo := empty_repo;
                   goroutines := [G_Restart_find] |}) as Hcreate.
  cbn [goroutines length env clock repo] in Hcreate.
  rewrite Hcreate. clear Hcreate.
  rewrite CreateAuction_fresh
    by (first [apply lookup_empty
              | unfold getMaxConcurrentAuctions; cbn; lia]).
  unfold empty_repo. cbn [fst snd Collection activeAuctionsCount app].
  rewrite insert_empty. cbn [run fold_left].
  pose proof (λ ar g gs2, step_Run_at e now ar [] g gs2 true) as Hstep.
  cbn [length app] in Hstep.
  rewrite Hstep. cbn [exec Collection]. unfold mongo.Find.
  rewrite map_to_list_singleton.
  cbn [fmap list_fmap List.filter snd auctionEntityMongo Status].
  rewrite Hactive, bool_decide_eq_true_2 by done.
  cbn [fst snd app]. rewrite Hstep. cbn [exec activeAuctionsCount].
  unfold getMaxConcurrentAuctions. change (0 + 1 <? 50) with true.
  cbn [fst snd app goroutines repo]. split; [done|]. split; [|done].
  reflexivity.
Qed.

(** Witness of X11: the sample auction. *)
Lemma auction_created_before_recovery_query_is_monitored_twice_witness :
  activeAuctionsCount
    (repo (run [Call_CreateAuction (sample_auction "a1"); Run 1 true;
                Run 1 true; Run 1 true; Run 0 true; Run 0 true]
             (boot (sample_env None) sample_now ∅))) = 2.
Proof.
  refine (proj1 (proj2
    (auction_created_before_recovery_query_is_monitored_twice
       (sample_env None) sample_now (sample_auction "a1") _))).
  reflexivity.
Defined.

(** ** Further properties: the recovery pass of the earlier revision *)

Lemma legacy_close_all_count answers l ar :
  legacy.activeAuctionsCount (legacy.close_all answers l ar)
  = legacy.activeAuctionsCount ar.
Proof.
  revert ar. induction l as [|d l IH]; intros ar; [done|].
  cbn [legacy.close_all]. rewrite IH.
  unfold legacy.UpdateAuctionStatus, mongo.UpdateOne.
  by destruct (answers d).
Qed.

Lemma legacy_close_all_lookup answers l ar id :
  legacy.Collection (legacy.close_all answers l ar) !! id
  = if decide (id ∈ legacy.Id <$> List.filter answers l)
    then legacy.set_status Completed <$> legacy.Collection ar !! id
    else legacy.Collection ar !! id.
Proof.
  revert ar. induction l as [|d l IH]; intros ar.
  { cbn [legacy.close_all List.filter]. rewrite fmap_nil.
    by rewrite decide_False by apply not_elem_of_nil. }
  cbn [legacy.close_all List.filter]. rewrite IH.
  unfold legacy.UpdateAuctionStatus, mongo.UpdateOne.
  destruct (answers d); cbn [fst legacy.Collection]; [|done].
  rewrite fmap_cons, lookup_alter.
  destruct (decide (legacy.Id d = id)) as [Heq|Hne].
  - subst id.
    rewrite (decide_True (P := legacy.Id d ∈ legacy.Id d :: _)) by left.
    destruct (decide (legacy.Id d ∈ _)); [|done].
    by destruct (legacy.Collection ar !! legacy.Id d).
  - destruct (decide (id ∈ legacy.Id <$> List.filter answers l))
      as [Hin|Hnotin].
    + by rewrite decide_True by (by right).
    + rewrite decide_False; [done|].
      intros [Heq|Hin]%elem_of_cons; [by apply Hne|by apply Hnotin].
Qed.

Lemma legacy_Find_Active c :
  legacy.well_keyed c →
  ∃ activeAuctions,
    mongo.Find true (λ d, bool_decide (legacy.Status d = Active)) c
    = Some activeAuctions
    ∧ ∀ d, d ∈ activeAuctions
           ↔ c !! legacy.Id d = Some d ∧ legacy.Status d = Active.
Proof.
  intros Hkeys. eexists. split; [reflexivity|].
  intros d. rewrite list_elem_of_In, List.filter_In, <- list_elem_of_In.
  rewrite bool_decide_eq_true, list_elem_of_fmap. split.
  - intros [([k d'] & -> & Hin%elem_of_map_to_list) Hs].
    cbn [snd] in *. by rewrite (Hkeys k d' Hin).
  - intros [Hd Hs]. split; [|done]. exists (legacy.Id d, d). split; [done|].
    by apply elem_of_map_to_list.
Qed.

(** X12.  The recovery pass of the earlier revision closes what it
    finds.  Run on its own over a well-keyed store that answers the query,
    it leaves the counter alone and every document in place: a document
    that was Active and whose update the store answered is Completed with
    the rest of it unchanged, and every other document is as it was.  So
    when the store answers every update no Active auction is left. *)
Theorem legacy_restart_closes_active_auctions
    (answers : legacy.AuctionEntityMongo → bool)
    (ar : legacy.AuctionRepository) :
  legacy.well_keyed (legacy.Collection ar) →
  let ar' := legacy.handleActiveAuctionsOnRestart true answers ar in
  legacy.activeAuctionsCount ar' = legacy.activeAuctionsCount ar
  ∧ (∀ id d, legacy.Collection ar !! id = Some d →
       legacy.Collection ar' !! id
       = Some (if bool_decide (legacy.Status d = Active) && answers d
               then legacy.set_status Completed d else d))
  ∧ (∀ id, legacy.Collection ar !! id = None →
           legacy.Collection ar' !! id = None)
  ∧ ((∀ d, answers d = true) →
     ∀ id d', legacy.Collection ar' !! id = Some d' →
              legacy.Status d' = Completed).
Proof.
  intros Hkeys. cbv zeta.
  destruct (legacy_Find_Active _ Hkeys) as (l & Hfind & Hin).
  unfold legacy.handleActiveAuctionsOnRestart. rewrite Hfind.
  assert (∀ id d, legacy.Collection ar !! id = Some d →
            legacy.Collection (legacy.close_all answers l ar) !! id
            = Some (if bool_decide (legacy.Status d = Active) && answers d
                    then legacy.set_status Completed d else d)) as Hlook.
  { intros id d Hd. pose proof (Hkeys id d Hd) as Hid. subst id.
    rewrite legacy_close_all_lookup, Hd. cbn [fmap option_fmap option_map].
    destruct (decide (legacy.Id d ∈ legacy.Id <$> List.filter answers l))
      as [Hmem|Hmem].
    - apply list_elem_of_fmap in Hmem as (d' & Heq & Hd').
      apply list_elem_of_In, List.filter_In in Hd' as [Hd' Hans].
      apply list_elem_of_In, Hin in Hd' as [Hlook Hact].
      rewrite <- Heq, Hd in Hlook. injection Hlook as <-.
      by rewrite bool_decide_eq_true_2, Hans by done.
    - destruct (bool_decide (legacy.Status d = Active)) eqn:Hact; [|done].
      destruct (answers d) eqn:Hans; [|done].
      exfalso. apply Hmem. apply list_elem_of_fmap_2.
      apply list_elem_of_In, List.filter_In. split; [|done].
      apply list_elem_of_In, Hin. split; [done|].
      by apply bool_decide_eq_true in Hact. }
  split; [apply legacy_close_all_count|]. split; [exact Hlook|]. split.
  - intros id Hnone. rewrite legacy_close_all_lookup, Hnone.
    by destruct (decide _).
  - intros Hall id d' Hd'.
    destruct (legacy.Collection ar !! id) as [d|] eqn:Hd.
    + rewrite (Hlook id d Hd) in Hd'. injection Hd' as <-.
      rewrite Hall, andb_true_r.
      destruct (bool_decide (legacy.Status d = Active)) eqn:Hact; [done|].
      apply bool_decide_eq_false in Hact.
      by destruct (legacy.Status d).
    + rewrite legacy_close_all_lookup, Hd in Hd'. by destruct (decide _).
Qed.

(** Witness of X12: a store with one Active auction. *)
Lemma legacy_restart_closes_active_auctions_witness :
  let d := {| legacy.Id := "a1"; legacy.ProductName := "Lamp";
              legacy.Category := "Home";
              legacy.Description := "A brass desk lamp";
              legacy.Condition := 1; legacy.Status := Active;
              legacy.Timestamp := 1700000000 |} in
  let ar := {| legacy.Collection := {[ "a1" := d ]};
               legacy.activeAuctionsCount := 0 |} in
  legacy.Collection
    (legacy.handleActiveAuctionsOnRestart true (λ _, true) ar) !! "a1"
  = Some (legacy.set_status Completed d).
Proof.
  cbv zeta.
  set (d := {| legacy.Id := "a1"; legacy.ProductName := "Lamp";
               legacy.Category := "Home";
               legacy.Description := "A brass desk lamp";
               legacy.Condition := 1; legacy.Status := Active;
               legacy.Timestamp := 1700000000 |}).
  assert (legacy.well_keyed ({[ "a1" := d ]})) as Hkeys.
  { intros id d'. intros [<- <-]%lookup_singleton_Some. reflexivity. }
  exact (proj1 (proj2 (legacy_restart_closes_active_auctions (λ _, true)
                         {| legacy.Collection := {[ "a1" := d ]};
                            legacy.activeAuctionsCount := 0 |} Hkeys))
               "a1" d eq_refl).
Defined.

(** ** Timers re-armed after a restart, from the start of the process *)




